(** * script.js: hospital locator -- retry/fallback fetch, ranking, escaping

    A shallow embedding of [src/script.js].

    - JavaScript strings are sequences of code units; the embedding keeps the
      code units below 256 ([string] of [ascii]).
    - JavaScript numbers are IEEE doubles.  The code never inspects more of a
      number than whether it is NaN and the sign of a difference, so a number
      is NaN, an infinity, or a finite value carried as a rational; the sign
      of a rounded difference of two doubles is the sign of the exact one.
    - Values produced by JSON.parse are a tree of undefined/null/booleans/
      numbers/strings/arrays/objects; an object is its list of own properties.
    - The network and the host functions JSON.parse, parseFloat on strings,
      Number-to-string conversion, encodeURIComponent and encodeURI are
      parameters of the definitions.  The two encoders return a string or
      throw, as they do on a string with an unpaired surrogate; nothing is
      assumed about the strings on which they throw.
    - An exception is a value of the completion type: what the code throws
      (a TypeError on a property of null or undefined, on a call of what is
      not a function, on the conversion to a string of an object with a
      [toString] property of its own) is followed to the [catch] it
      reaches.
    - The world threaded through the asynchronous functions is the list of
      requests and waits issued so far, newest first.
    - Parts I to III follow [searchHospitals] up to line 145, where the
      status line is written and the list to show is fixed, with
      [haversine] as a parameter; Part IV follows the card loop (lines
      147-188); Part V is [haversine] itself on binary64 floats, with
      Math.sin, Math.cos, Math.sqrt and Math.atan2 as parameters. *)

From Stdlib Require Import String Ascii List Bool Arith ZArith QArith Qabs Lia Lqa.
From Stdlib Require Import Sorting.Sorted Sorting.Permutation.
From Stdlib Require Import DecimalString.
From Stdlib Require Import Floats.
Import ListNotations.
Local Open Scope list_scope.
Local Open Scope string_scope.
Local Open Scope nat_scope.
Set Warnings "-register-all".

(* ================================================================== *)
(** * Part I: the program *)
(* ================================================================== *)

(** ** Strings *)

Module Js.

(** The double-quote character, code unit 34. *)
Definition dquote : ascii := Ascii.ascii_of_nat 34.

(** A template-literal line break. *)
Definition nl : string := String (Ascii.ascii_of_nat 10) EmptyString.

(** Decimal rendering of a non-negative integer, as template literals do. *)
Definition dec (n : nat) : string := NilZero.string_of_uint (Nat.to_uint n).

(** WhiteSpace and LineTerminator code units below 256: TAB, LF, VT, FF, CR,
    SP and NBSP. *)
Definition is_space (c : ascii) : bool :=
  let n := Ascii.nat_of_ascii c in
  ((9 <=? n) && (n <=? 13)) || (n =? 32) || (n =? 160).

Fixpoint trimStart (s : string) : string :=
  match s with
  | EmptyString => EmptyString
  | String c s' => if is_space c then trimStart s' else s
  end.

(** [trimEnd] keeps a character when it is not a space or when something
    non-blank follows it. *)
Fixpoint trimEnd (s : string) : string :=
  match s with
  | EmptyString => EmptyString
  | String c s' =>
      match trimEnd s' with
      | EmptyString => if is_space c then EmptyString else String c EmptyString
      | t => String c t
      end
  end.

(** Every code unit of [s] is white space. *)
Fixpoint all_space (s : string) : bool :=
  match s with
  | EmptyString => true
  | String c s' => is_space c && all_space s'
  end.

(** String.prototype.trim *)
Definition trim (s : string) : string := trimEnd (trimStart s).

(** [s.slice(0, n)] for a non-negative [n]. *)
Definition slice0 (n : nat) (s : string) : string := substring 0 n s.

(** [s.replace(/[...]/g, f)] for a one-character class: every code unit is
    replaced by [f c]; [f] returns the unit itself outside the class. *)
Fixpoint replace_each (f : ascii -> string) (s : string) : string :=
  match s with
  | EmptyString => EmptyString
  | String c s' => f c ++ replace_each f s'
  end.

(** [hay.includes(needle)] *)
Fixpoint includes (needle hay : string) : bool :=
  prefix needle hay
  || match hay with
     | EmptyString => false
     | String _ hay' => includes needle hay'
     end.

End Js.

(** ** Numbers *)

Inductive number : Type :=
| NaN
| PInf
| NInf
| Fin (q : Q).

Module Num.

Definition isNaN (x : number) : bool :=
  match x with NaN => true | _ => false end.

Definition isFinite (x : number) : bool :=
  match x with Fin _ => true | _ => false end.

Definition Qltb (a b : Q) : bool := negb (Qle_bool b a).

(** [x - y] *)
Definition sub (x y : number) : number :=
  match x, y with
  | NaN, _ | _, NaN => NaN
  | PInf, PInf => NaN
  | NInf, NInf => NaN
  | PInf, _ => PInf
  | NInf, _ => NInf
  | Fin _, PInf => NInf
  | Fin _, NInf => PInf
  | Fin a, Fin b => Fin (a - b)
  end.

(** [x < y] *)
Definition ltb (x y : number) : bool :=
  match x, y with
  | NaN, _ | _, NaN => false
  | _, NInf => false
  | NInf, _ => true
  | PInf, _ => false
  | Fin _, PInf => true
  | Fin a, Fin b => Qltb a b
  end.

(** [x <= y] *)
Definition leb (x y : number) : bool :=
  match x, y with
  | NaN, _ | _, NaN => false
  | NInf, _ => true
  | _, PInf => true
  | PInf, _ => false
  | Fin _, NInf => false
  | Fin a, Fin b => Qle_bool a b
  end.

(** [x === 0] *)
Definition is_zero (x : number) : bool :=
  match x with Fin q => Qeq_bool q 0 | _ => false end.

Definition of_nat (n : nat) : number := Fin (inject_Z (Z.of_nat n)).

End Num.

(** ** Values *)

Inductive value : Type :=
| VUndefined
| VNull
| VBool (b : bool)
| VNum (n : number)
| VStr (s : string)
| VArr (items : list value)
| VObj (props : list (string * value)).

(** Thrown values are Error objects, told apart by their message. *)
Inductive exn : Type :=
| Error (message : string).

(** How a block of code completes. *)
Inductive completion (A : Type) : Type :=
| Return (a : A)
| Throw (e : exn).
Arguments Return {A} a.
Arguments Throw {A} e.

Module Val.

(** ToBoolean *)
Definition truthy (v : value) : bool :=
  match v with
  | VUndefined | VNull => false
  | VBool b => b
  | VNum n => negb (Num.isNaN n || Num.is_zero n)
  | VStr s => negb (String.eqb s "")
  | VArr _ | VObj _ => true
  end.

Fixpoint lookup (k : string) (props : list (string * value)) : value :=
  match props with
  | [] => VUndefined
  | (k', v) :: rest => if String.eqb k k' then v else lookup k rest
  end.

(** [v.k] for the property names this program reads ([elements], [length],
    [lat], [lon], [center]), none of which is defined on a built-in
    prototype other than [length] on arrays and strings.  Reading a
    property of undefined or null throws a TypeError. *)
Definition get (v : value) (k : string) : completion value :=
  match v with
  | VUndefined | VNull =>
      Throw (Error ("Cannot read properties of undefined or null: " ++ k))
  | VObj props => Return (lookup k props)
  | VArr l =>
      Return (if String.eqb k "length" then VNum (Num.of_nat (List.length l))
              else VUndefined)
  | VStr s =>
      Return (if String.eqb k "length" then VNum (Num.of_nat (String.length s))
              else VUndefined)
  | VBool _ | VNum _ => Return VUndefined
  end.

(** [v !== undefined] *)
Definition is_defined (v : value) : bool :=
  match v with VUndefined => false | _ => true end.

End Val.

(** ** escapeHtml, escapeHtmlAttr (script.js 192-200) *)

Module Escape.

(** The replacement callback of [escapeHtml]: the object literal indexed by
    the matched character; a character outside the class is not matched. *)
Definition entity (c : ascii) : string :=
  let n := Ascii.nat_of_ascii c in
  if n =? 38 then "&amp;"
  else if n =? 60 then "&lt;"
  else if n =? 62 then "&gt;"
  else if n =? 34 then "&quot;"
  else if n =? 39 then "&#39;"
  else String c EmptyString.

(** [if (!s) return ''; return s.replace(/[&<>quote apostrophe]/g, ...)] on a
    string argument. *)
Definition escapeHtml (s : string) : string :=
  if String.eqb s "" then "" else Js.replace_each entity s.

(** The callback of [.replace(/quote/g, '%22')]. *)
Definition pct22 (c : ascii) : string :=
  if Ascii.nat_of_ascii c =? 34 then "%22" else String c EmptyString.

Definition escapeHtmlAttr (s : string) : string :=
  Js.replace_each pct22 (escapeHtml s).

End Escape.

(** ** tryFetchJson (script.js 27-55) *)

(** What the page observes of one [fetch(url, opts)] followed by
    [res.text()]: either promise rejects, or a response arrives with its
    status line and body text. *)
Record response : Type := mkResponse {
  status : nat;
  statusText : string;
  text : string
}.

Inductive fetch_outcome : Type :=
| Rejected (e : exn)
| Responded (res : response).

(** [res.ok]: the status is in the range 200-299. *)
Definition ok (res : response) : bool :=
  (200 <=? status res) && (status res <=? 299).

(** Effects of the asynchronous code, in the order they are issued. *)
Inductive event : Type :=
| Fetch (url : string)
| Wait (ms : Z).

(** The world: every event so far, newest first. *)
Definition world : Type := list event.

Fixpoint requests (w : world) : nat :=
  match w with
  | [] => 0
  | Fetch _ :: w' => S (requests w')
  | Wait _ :: w' => requests w'
  end.

(** The URLs contacted so far, oldest first. *)
Fixpoint fetched_rev (w : world) : list string :=
  match w with
  | [] => []
  | Fetch u :: w' => u :: fetched_rev w'
  | Wait _ :: w' => fetched_rev w'
  end.

Definition fetched (w : world) : list string := rev (fetched_rev w).

(** The value [tryFetchJson] resolves to: [{ data, url }]. *)
Record fetched_json : Type := mkFetched {
  data : value;
  url : string
}.

Section Fetcher.

(** [JSON.parse]: a value, or the SyntaxError it throws. *)
Variable JSON_parse : string -> completion value.

(** The network: the outcome of the request that is issued after [n] earlier
    ones, as a function of its URL. *)
Variable network : nat -> string -> fetch_outcome.

(** [await fetch(url, opts); await res.text()] *)
Definition fetch (u : string) (w : world) : fetch_outcome * world :=
  (network (requests w) u, Fetch u :: w).

(** [await wait(ms)] *)
Definition wait (ms : Z) (w : world) : world := Wait ms :: w.

(** [500 * Math.pow(2, attempt)] *)
Definition backoff (attempt : nat) : Z := (500 * 2 ^ Z.of_nat attempt)%Z.

Definition http_error (res : response) : exn :=
  Error ("HTTP " ++ Js.dec (status res) ++ " " ++ statusText res).

(** The dash of the message, U+2014, in its three-byte encoding. *)
Definition em_dash : string :=
  String (Ascii.ascii_of_nat 226)
    (String (Ascii.ascii_of_nat 128) (String (Ascii.ascii_of_nat 148) EmptyString)).

Definition non_json_error (u : string) (res : response) : exn :=
  Error ("Non-JSON response from " ++ u ++ " (status " ++ Js.dec (status res)
         ++ ") " ++ em_dash ++ " first chars: " ++ Js.slice0 180 (text res)).

(** The inner [try] block (lines 36-41): parse, then throw on a status that
    is not ok, else return. *)
Definition inner_try (u : string) (res : response) : completion fetched_json :=
  match JSON_parse (text res) with
  | Throw syntaxErr => Throw syntaxErr
  | Return d =>
      if negb (ok res) then Throw (http_error res)
      else Return (mkFetched d u)
  end.

(** The inner [try]/[catch (parseErr)] (lines 36-45): whatever the block
    throws is replaced by the non-JSON error. *)
Definition parse_checked (u : string) (res : response) : completion fetched_json :=
  match inner_try u res with
  | Return r => Return r
  | Throw parseErr => Throw (non_json_error u res)
  end.

(** The outer [try] block (lines 33-45) given what the network did. *)
Definition attempt_body (u : string) (o : fetch_outcome) : completion fetched_json :=
  match o with
  | Rejected e => Throw e
  | Responded res => parse_checked u res
  end.

(** What the outer loop does once the loop over attempts is over. *)
Inductive attempts_exit : Type :=
| Resolved (r : fetched_json)
| Exhausted (lastErr : option exn).

(** [for (let attempt = 0; attempt < tries; attempt++)] with [remaining]
    iterations left, the next one being number [attempt]. *)
Fixpoint attempts (u : string) (remaining attempt : nat)
  (lastErr : option exn) (w : world) : attempts_exit * world :=
  match remaining with
  | 0 => (Exhausted lastErr, w)
  | S remaining' =>
      let (o, w1) := fetch u w in
      match attempt_body u o with
      | Return r => (Resolved r, w1)
      | Throw err =>
          let w2 := wait (backoff attempt) w1 in
          attempts u remaining' (S attempt) (Some err) w2
      end
  end.

(** [for (const url of urls)] and the final [throw]. *)
Fixpoint endpoints (urls : list string) (tries : nat)
  (lastErr : option exn) (w : world) : completion fetched_json * world :=
  match urls with
  | [] =>
      (Throw (match lastErr with
              | Some e => e
              | None => Error "All fetch attempts failed"
              end), w)
  | u :: urls' =>
      match attempts u tries 0 lastErr w with
      | (Resolved r, w') => (Return r, w')
      | (Exhausted lastErr', w') => endpoints urls' tries lastErr' w'
      end
  end.

(** [tryFetchJson(urls, opts, tries)]; [tries] is a count of attempts (the
    callers pass 2 and 3, the default is 3). *)
Definition tryFetchJson (urls : list string) (tries : nat) (w : world)
  : completion fetched_json * world :=
  endpoints urls tries None w.

End Fetcher.

(** ** Array.prototype.sort and slice *)

Module Arr.

Section Sort.

Context {A : Type}.

(** The comparator, [(a, b) => number]. *)
Variable comparefn : A -> A -> number.

(** [x] sorts after [y] when [comparefn(x, y) > 0]; a NaN result counts as
    zero. *)
Definition after (x y : A) : bool := Num.ltb (Fin 0) (comparefn x y).

Fixpoint insert (x : A) (l : list A) : list A :=
  match l with
  | [] => [x]
  | y :: l' => if after x y then y :: insert x l' else x :: l
  end.

(** [sort] is a stable sort: with a consistent comparator every conforming
    implementation returns this list.  With an inconsistent one (a NaN
    difference between keys that other comparisons separate) the order is
    left to the implementation; stable insertion is what is modelled. *)
Fixpoint sort (l : list A) : list A :=
  match l with
  | [] => []
  | x :: l' => insert x (sort l')
  end.

End Sort.

(** [l.slice(0, n)] *)
Definition slice0 {A : Type} (n : nat) (l : list A) : list A := firstn n l.

End Arr.

(** ** searchHospitals (script.js 57-145) *)

Notation "x <- c ;; k" :=
  (match c with Return x => k | Throw e => Throw e end)
  (at level 61, c at next level, right associativity).

(** One entry of [items]: the element and its parsed coordinates. *)
Record item : Type := mkItem {
  el : value;
  lat2 : number;
  lon2 : number
}.

(** An entry once [forEach] has attached its distance. *)
Record ranked : Type := mkRanked {
  entry : item;
  distance : number
}.

(** How [searchHospitals] ends, as far as line 145: the text left in the
    status paragraph and the list handed to the card loop.  The card loop
    itself (lines 147-183) is presentation and is not modelled. *)
Inductive outcome : Type :=
| InvalidInput
| PlaceNotFound
| GeodataUnavailable
| NoResultsInRadius (place : string)
| Found (total : nat) (toShow : list ranked)
| UnexpectedFailure (e : exn).

Definition radius : Z := 15000.

Definition decZ (z : Z) : string := NilZero.string_of_int (Z.to_int z).

(** [statusP.textContent] at the early [return]s and once line 145 has run. *)
Definition status_text (o : outcome) : string :=
  match o with
  | InvalidInput => "Please type or select a tourist place."
  | PlaceNotFound => "Place not found. Try a nearby city or check spelling."
  | GeodataUnavailable =>
      "Failed to fetch hospital data (server busy or rate-limited). Try again in a moment."
  | NoResultsInRadius place =>
      "No hospitals/clinics found within " ++ decZ (radius / 1000) ++ " km of "
      ++ place ++ "."
  | Found total toShow =>
      "Found " ++ Js.dec total ++ " items; showing nearest "
      ++ Js.dec (List.length toShow) ++ "."
  | UnexpectedFailure _ =>
      "An error occurred while searching. See console for details."
  end.

(** The object has an own property [k]. *)
Definition has_key (k : string) (props : list (string * value)) : bool :=
  existsb (fun p => String.eqb k (fst p)) props.

Section Join.

(** The conversion of one element. *)
Variable element_string : value -> completion string.

(** [Array.prototype.join]: undefined and null elements count as empty. *)
Fixpoint join (sep : string) (l : list value) : completion string :=
  match l with
  | [] => Return ""
  | x :: rest =>
      sx <- match x with
            | VUndefined | VNull => Return ""
            | _ => element_string x
            end ;;
      match rest with
      | [] => Return sx
      | _ => sr <- join sep rest ;; Return (sx ++ sep ++ sr)
      end
  end.

End Join.

Section Search.

Variable JSON_parse : string -> completion value.
Variable network : nat -> string -> fetch_outcome.

(** [parseFloat] on a string. *)
Variable parseFloat_string : string -> number.

(** Number-to-string conversion, as in template literals. *)
Variable number_to_string : number -> string.

(** [encodeURIComponent]: the encoded string, or the URIError it throws on
    a string with an unpaired surrogate. *)
Variable encodeURIComponent : string -> completion string.

(** [haversine(lat1, lon1, lat2, lon2)] (lines 15-25): double arithmetic
    over Math.sin, Math.cos, Math.sqrt and Math.atan2, whose results the
    language leaves to the implementation. *)
Variable haversine : number -> number -> number -> number -> number.

(** ToString, as [parseFloat], template literals and [join] apply it.  A
    plain object prints through Object.prototype.toString unless an own
    property [toString] hides it; parsed JSON holds no function, so the
    conversion then finds nothing to call and throws a TypeError. *)
Fixpoint ToString (v : value) : completion string :=
  match v with
  | VUndefined => Return "undefined"
  | VNull => Return "null"
  | VBool true => Return "true"
  | VBool false => Return "false"
  | VNum n => Return (number_to_string n)
  | VStr s => Return s
  | VArr l => join ToString "," l
  | VObj props =>
      if has_key "toString" props
      then Throw (Error "Cannot convert object to primitive value")
      else Return "[object Object]"
  end.

(** [parseFloat(v)]: the argument is converted to a string, which may
    throw, and the longest numeric prefix of the string is read.  A number
    prints to a string that reads back as itself; [undefined], [null],
    [true], [false] and [[object Object]] have no numeric prefix. *)
Definition parseFloat (v : value) : completion number :=
  match v with
  | VNum n => Return n
  | VStr s => Return (parseFloat_string s)
  | VArr _ => s <- ToString v ;; Return (parseFloat_string s)
  | VObj _ => _ <- ToString v ;; Return NaN
  | VUndefined | VNull | VBool _ => Return NaN
  end.

(** [(el.k !== undefined) ? el.k : (el.center && el.center.k)] *)
Definition coordinate (e : value) (k : string) : completion value :=
  d <- Val.get e k ;;
  if Val.is_defined d then Return d
  else
    c <- Val.get e "center" ;;
    if Val.truthy c then Val.get c k else Return c.

(** The callback of [elements.map] (lines 127-134). *)
Definition locate (e : value) : completion item :=
  la <- coordinate e "lat" ;;
  lo <- coordinate e "lon" ;;
  lat2 <- parseFloat la ;;
  lon2 <- parseFloat lo ;;
  Return (mkItem e lat2 lon2).

(** [elements.map(...)]: the first callback that throws ends the map. *)
Fixpoint map_locate (l : list value) : completion (list item) :=
  match l with
  | [] => Return []
  | e :: l' =>
      i <- locate e ;;
      rest <- map_locate l' ;;
      Return (i :: rest)
  end.

(** The callback of [.filter] (line 135). *)
Definition has_coordinates (i : item) : bool :=
  negb (Num.isNaN (lat2 i)) && negb (Num.isNaN (lon2 i)).

(** [items]: lines 127-135. *)
Definition build_items (els : list value) : completion (list item) :=
  mapped <- map_locate els ;;
  Return (filter has_coordinates mapped).

(** The [forEach] of line 138. *)
Definition attach_distance (lat lon : number) (i : item) : ranked :=
  mkRanked i (haversine lat lon (lat2 i) (lon2 i)).

(** The comparator of line 139. *)
Definition by_distance (a b : ranked) : number :=
  Num.sub (distance a) (distance b).

(** Lines 138-142. *)
Definition rank (lat lon : number) (items : list item) : list ranked :=
  Arr.slice0 30 (Arr.sort by_distance (map (attach_distance lat lon) items)).

(** [v === 0] *)
Definition strict_eq_zero (v : value) : bool :=
  match v with VNum n => Num.is_zero n | _ => false end.

(** Lines 120-145, given the parsed geodata response. *)
Definition present (lat lon : number) (place : string) (hospitalJson : value)
  : outcome :=
  match Val.get hospitalJson "elements" with
  | Throw e => UnexpectedFailure e
  | Return e0 =>
      let elements := if Val.truthy e0 then e0 else VArr [] in
      match Val.get elements "length" with
      | Throw e => UnexpectedFailure e
      | Return len =>
          if strict_eq_zero len then NoResultsInRadius place
          else
            match elements with
            | VArr els =>
                match build_items els with
                | Throw e => UnexpectedFailure e
                | Return items => Found (List.length els) (rank lat lon items)
                end
            | _ => UnexpectedFailure (Error "elements.map is not a function")
            end
      end
  end.

Definition region : string := ", Tamil Nadu, India".

(** The two geocoding URLs around their encoded queries. *)
Definition geoUrls (q1 q2 : string) : list string :=
  [ "https://nominatim.openstreetmap.org/search?format=json&limit=1&q=" ++ q1;
    "https://geocode.maps.co/search?q=" ++ q2 ++ "&limit=1" ].

(** Lines 70-73: the place and the region are encoded once for each URL. *)
Definition geoEndpoints (place : string) : completion (list string) :=
  q1 <- encodeURIComponent (place ++ region) ;;
  q2 <- encodeURIComponent (place ++ region) ;;
  Return (geoUrls q1 q2).

Definition quoted (s : string) : string :=
  String Js.dquote s ++ String Js.dquote EmptyString.

Definition clause (kind amenity : string) (lat lon : number) : string :=
  "        " ++ kind ++ "[" ++ quoted "amenity" ++ "=" ++ quoted amenity
  ++ "](around:" ++ decZ radius ++ "," ++ number_to_string lat ++ ","
  ++ number_to_string lon ++ ");" ++ Js.nl.

(** Lines 90-101. *)
Definition overpassQuery (lat lon : number) : string :=
  Js.trim
    (Js.nl ++ "      [out:json][timeout:30];" ++ Js.nl
     ++ "      (" ++ Js.nl
     ++ clause "node" "hospital" lat lon
     ++ clause "way" "hospital" lat lon
     ++ clause "relation" "hospital" lat lon
     ++ clause "node" "clinic" lat lon
     ++ clause "way" "clinic" lat lon
     ++ clause "relation" "clinic" lat lon
     ++ "      );" ++ Js.nl
     ++ "      out center;" ++ Js.nl
     ++ "    ").

(** The two Overpass URLs around the encoded query. *)
Definition overpassList (encoded : string) : list string :=
  [ "https://overpass-api.de/api/interpreter?data=" ++ encoded;
    "https://overpass.kumi.systems/api/interpreter?data=" ++ encoded ].

(** Lines 103-107. *)
Definition overpassUrls (lat lon : number) : completion (list string) :=
  encoded <- encodeURIComponent (overpassQuery lat lon) ;;
  Return (overpassList encoded).

(** Lines 82-83: the origin, read off the first geocoding candidate. *)
Definition origin (g0 : value) : completion (number * number) :=
  la <- Val.get g0 "lat" ;;
  lat <- parseFloat la ;;
  lo <- Val.get g0 "lon" ;;
  lon <- parseFloat lo ;;
  Return (lat, lon).

(** Lines 104-145 once the origin is known: what is thrown while the URLs
    are built reaches the outer [catch], what the fetch throws the inner
    one. *)
Definition search_around (lat lon : number) (place : string) (w1 : world)
  : outcome * world :=
  match overpassUrls lat lon with
  | Throw e => (UnexpectedFailure e, w1)
  | Return urls =>
      match tryFetchJson JSON_parse network urls 3 w1 with
      | (Throw err, w2) => (GeodataUnavailable, w2)
      | (Return fetchRes, w2) => (present lat lon place (data fetchRes), w2)
      end
  end.

(** [searchHospitals()], with [input] the text of the place field. *)
Definition searchHospitals (input : string) (w : world) : outcome * world :=
  let place := Js.trim input in
  if String.eqb place "" then (InvalidInput, w)
  else
    match geoEndpoints place with
    | Throw e => (UnexpectedFailure e, w)
    | Return geoUrls =>
        match tryFetchJson JSON_parse network geoUrls 2 w with
        | (Throw e, w1) => (UnexpectedFailure e, w1)
        | (Return geo, w1) =>
            match data geo with
            | VArr (g0 :: _) =>
                match origin g0 with
                | Throw e => (UnexpectedFailure e, w1)
                | Return (lat, lon) => search_around lat lon place w1
                end
            | _ => (PlaceNotFound, w1)
            end
        end
    end.

End Search.

(** ** Vocabulary of the statements about tryFetchJson *)

Section FetcherVocabulary.

Variable JSON_parse : string -> completion value.
Variable network : nat -> string -> fetch_outcome.

(** Request number [k], sent to [u], comes back with a body that parses as
    JSON and a 2xx status. *)
Definition succeeds (k : nat) (u : string) : bool :=
  match network k u with
  | Rejected _ => false
  | Responded res =>
      match JSON_parse (text res) with
      | Return _ => ok res
      | Throw _ => false
      end
  end.

(** The attempts a call makes when none succeeds, in order: each endpoint
    [tries] times. *)
Definition schedule (urls : list string) (tries : nat) : list string :=
  flat_map (fun u => repeat u tries) urls.

(** The same with the attempt counter of each. *)
Definition numbered_schedule (urls : list string) (tries : nat)
  : list (string * nat) :=
  flat_map (fun u => map (pair u) (seq 0 tries)) urls.

(** Requests [k], [k+1], ... sent to the URLs of [sched] all fail. *)
Fixpoint all_fail (k : nat) (sched : list string) : bool :=
  match sched with
  | [] => true
  | u :: sched' => negb (succeeds k u) && all_fail (S k) sched'
  end.

(** The error each failing attempt of [sched] records, in order. *)
Fixpoint errors_from (k : nat) (sched : list string) : list exn :=
  match sched with
  | [] => []
  | u :: sched' =>
      match attempt_body JSON_parse u (network k u) with
      | Throw e => e :: errors_from (S k) sched'
      | Return _ => errors_from (S k) sched'
      end
  end.

(** The nested loops of [tryFetchJson] flattened into one pass over a
    numbered schedule. *)
Fixpoint run (sched : list (string * nat)) (lastErr : option exn) (w : world)
  : completion fetched_json * world :=
  match sched with
  | [] =>
      (Throw (match lastErr with
              | Some e => e
              | None => Error "All fetch attempts failed"
              end), w)
  | (u, attempt) :: sched' =>
      match attempt_body JSON_parse u (network (requests w) u) with
      | Return r => (Return r, Fetch u :: w)
      | Throw err =>
          run sched' (Some err) (Wait (backoff attempt) :: Fetch u :: w)
      end
  end.

End FetcherVocabulary.

(** The waits recorded in a world, newest first, and oldest first. *)
Fixpoint waits_rev (w : world) : list Z :=
  match w with
  | [] => []
  | Wait ms :: w' => ms :: waits_rev w'
  | Fetch _ :: w' => waits_rev w'
  end.

Definition waits (w : world) : list Z := rev (waits_rev w).

(** The world after attempt number [snd p] on endpoint [fst p] has failed:
    the request, then the wait. *)
Definition failed_attempt (w : world) (p : string * nat) : world :=
  Wait (backoff (snd p)) :: Fetch (fst p) :: w.

(** The world after every attempt of a numbered schedule has failed. *)
Definition after_failures (sched : list (string * nat)) (w : world) : world :=
  fold_left failed_attempt sched w.

(** ** Vocabulary of the statements about searchHospitals *)

(** Where the raw coordinate [v] of element [e] under key [k] comes from:
    the element's own field when it is defined; otherwise the field of its
    [center] when [center] is truthy; otherwise the falsy [center] value
    itself (usually undefined). *)
Inductive resolves (e : value) (k : string) : value -> Prop :=
| from_field (v : value) :
    Val.get e k = Return v -> Val.is_defined v = true -> resolves e k v
| from_center (c v : value) :
    Val.get e k = Return VUndefined ->
    Val.get e "center" = Return c -> Val.truthy c = true ->
    Val.get c k = Return v -> resolves e k v
| without_center (c : value) :
    Val.get e k = Return VUndefined ->
    Val.get e "center" = Return c -> Val.truthy c = false ->
    resolves e k c.

Section SearchVocabulary.

Variable parseFloat_string : string -> number.
Variable number_to_string : number -> string.

(** [i] is the entry the map of lines 127-134 makes of element [e]. *)
Definition located (e : value) (i : item) : Prop :=
  el i = e
  /\ exists la lo,
       resolves e "lat" la /\ resolves e "lon" lo
       /\ parseFloat parseFloat_string number_to_string la = Return (lat2 i)
       /\ parseFloat parseFloat_string number_to_string lo = Return (lon2 i).

End SearchVocabulary.

(** A comparator that is the difference of two keys, as the one of line 139
    is, and the order of the keys. *)
Definition by_key {A : Type} (key : A -> number) (a b : A) : number :=
  Num.sub (key a) (key b).

Definition key_le {A : Type} (key : A -> number) (a b : A) : Prop :=
  Num.leb (key a) (key b) = true.

(** ** Sample collaborators

    Fixed collaborators for the closed examples: a network, and stand-ins
    for the host functions on the few arguments the examples reach. *)

Module Sample.

(** A geocoding answer: one candidate, its coordinates as strings. *)
Definition geo_body : string :=
  "[{" ++ quoted "lat" ++ ":" ++ quoted "11.41" ++ ","
  ++ quoted "lon" ++ ":" ++ quoted "76.70" ++ "}]".

(** A geodata answer: a node, and a way that came without its center. *)
Definition osm_body : string :=
  "{" ++ quoted "elements" ++ ":[{" ++ quoted "lat" ++ ":11.5,"
  ++ quoted "lon" ++ ":76.7},{" ++ quoted "type" ++ ":" ++ quoted "way" ++ "}]}".

(** Agrees with JSON.parse on the bodies the sample networks serve: an
    empty object, an empty array, the two answers above, and an HTML page
    that is not JSON. *)
Definition JSON_parse (s : string) : completion value :=
  if String.eqb s "{}" then Return (VObj [])
  else if String.eqb s "[]" then Return (VArr [])
  else if String.eqb s geo_body then
    Return (VArr [VObj [("lat", VStr "11.41"); ("lon", VStr "76.70")]])
  else if String.eqb s osm_body then
    Return (VObj [("elements",
                   VArr [VObj [("lat", VNum (Fin 11.5)); ("lon", VNum (Fin 76.7))];
                         VObj [("type", VStr "way")]])])
  else Throw (Error "SyntaxError: Unexpected token").

Definition E1 : string := "https://e1.example/api".
Definition E2 : string := "https://e2.example/api".

Definition busy : response :=
  mkResponse 503 "Service Unavailable" "<html>busy</html>".

Definition fine : response := mkResponse 200 "OK" "{}".

(** A JSON body under an error status. *)
Definition broken : response := mkResponse 500 "Internal Server Error" "{}".

(** [E1] always answers with an HTML error page, every other endpoint
    answers 200 with JSON. *)
Definition e1_down (k : nat) (u : string) : fetch_outcome :=
  if String.eqb u E1 then Responded busy else Responded fine.

(** Every endpoint answers with the HTML error page. *)
Definition all_down (k : nat) (u : string) : fetch_outcome := Responded busy.

(** Every endpoint answers 500 with a JSON body. *)
Definition all_broken (k : nat) (u : string) : fetch_outcome :=
  Responded broken.

(** Nominatim answers with [geo_body], the first Overpass server with
    [osm_body], every other endpoint with the HTML error page. *)
Definition serving (k : nat) (u : string) : fetch_outcome :=
  if prefix "https://nominatim.openstreetmap.org/" u then
    Responded (mkResponse 200 "OK" geo_body)
  else if prefix "https://overpass-api.de/" u then
    Responded (mkResponse 200 "OK" osm_body)
  else Responded busy.

(** Nominatim answers with [geo_body]; every other endpoint, the Overpass
    servers among them, answers with the HTML error page. *)
Definition geodata_down (k : nat) (u : string) : fetch_outcome :=
  if prefix "https://nominatim.openstreetmap.org/" u then
    Responded (mkResponse 200 "OK" geo_body)
  else Responded busy.

(** Agrees with parseFloat on the two strings of [geo_body]; the samples
    read no other string.  The numbers the samples print are 0, 11.41 and
    76.7.  URI encoding is left out: it only shapes the query part of the
    URLs, which the sample networks do not look at. *)
Definition parseFloat_string (s : string) : number :=
  if String.eqb s "11.41" then Fin 11.41
  else if String.eqb s "76.70" then Fin 76.7
  else NaN.
Definition number_to_string (n : number) : string :=
  match n with
  | NaN => "NaN"
  | PInf => "Infinity"
  | NInf => "-Infinity"
  | Fin q =>
      if Qeq_bool q 11.41 then "11.41"
      else if Qeq_bool q 76.7 then "76.7"
      else "0"
  end.
Definition encodeURIComponent (s : string) : completion string := Return s.

(** Distance along a meridian, 111.19 km to the degree; NaN as soon as an
    argument is not finite, as Math.sin makes it in [haversine]. *)
Definition haversine (lat1 lon1 lat2 lon2 : number) : number :=
  match lat1, lon1, lat2, lon2 with
  | Fin a, Fin _, Fin b, Fin _ => Fin (Qred (Qabs (b - a) * (11119 # 100)))
  | _, _, _, _ => NaN
  end.

(** An Overpass node. *)
Definition node (lat lon : number) : value :=
  VObj [("type", VStr "node"); ("lat", VNum lat); ("lon", VNum lon)].

(** An Overpass way, located by its center. *)
Definition way (lat lon : number) : value :=
  VObj [("type", VStr "way");
        ("center", VObj [("lat", VNum lat); ("lon", VNum lon)])].

(** An element with no coordinates at all. *)
Definition bare : value := VObj [("type", VStr "relation")].

(** The node on the meridian of the origin at [km] kilometres times 100. *)
Definition at_km (hundredths : Z) : value :=
  node (Fin (Qred (inject_Z hundredths / 11119))) (Fin 0).

(** The entry [items] holds for [at_km hundredths]. *)
Definition item_at (hundredths : Z) : item :=
  mkItem (at_km hundredths) (Fin (Qred (inject_Z hundredths / 11119))) (Fin 0).

Definition response_of (els : list value) : value :=
  VObj [("version", VNum (Fin (6 # 10))); ("elements", VArr els)].

(** Five nodes at 2.1, 0.5, 10.3, 1.0 and 7.7 km. *)
Definition five : list Z := [210; 50; 1030; 100; 770]%Z.

(** Eight nodes with coordinates. *)
Definition eight : list Z := [210; 50; 1030; 100; 770; 300; 400; 500]%Z.

(** Ten elements, two of them without coordinates. *)
Definition ten : list value := (map at_km eight ++ [bare; bare])%list.

(** A node, an element without coordinates, and a way with a center. *)
Definition mixed : list value := [at_km 210; bare; way (Fin 1) (Fin 0)].

(** A node one degree north, a node whose latitude overflowed to infinity
    (1e999 in the response), and a node at the origin. *)
Definition overflowed : list value :=
  [node (Fin 1) (Fin 0); node PInf (Fin 0); node (Fin 0) (Fin 0)].

End Sample.

(* ================================================================== *)
(** * Part II: properties *)
(* ================================================================== *)

(** ** The fetcher *)

Section FetcherProperties.

Variable JSON_parse : string -> completion value.
Variable network : nat -> string -> fetch_outcome.

Local Abbreviation attempt_body := (attempt_body JSON_parse).
Local Abbreviation attempts := (attempts JSON_parse network).
Local Abbreviation endpoints := (endpoints JSON_parse network).
Local Abbreviation tryFetchJson := (tryFetchJson JSON_parse network).
Local Abbreviation succeeds := (succeeds JSON_parse network).
Local Abbreviation all_fail := (all_fail JSON_parse network).
Local Abbreviation errors_from := (errors_from JSON_parse network).
Local Abbreviation run := (run JSON_parse network).

Lemma attempts_run (u : string) (n : nat) :
  forall a rest le w,
    run (map (pair u) (seq a n) ++ rest)%list le w =
    match attempts u n a le w with
    | (Resolved r, w') => (Return r, w')
    | (Exhausted le', w') => run rest le' w'
    end.
Proof.
  induction n as [|n IH]; intros a rest le w; simpl.
  - reflexivity.
  - destruct (attempt_body u (network (requests w) u)) as [r|err].
    + reflexivity.
    + unfold wait. apply IH.
Qed.

Lemma endpoints_run (tries : nat) :
  forall urls le w,
    endpoints urls tries le w = run (numbered_schedule urls tries) le w.
Proof.
  induction urls as [|u urls IH]; intros le w; simpl.
  - reflexivity.
  - rewrite attempts_run.
    destruct (attempts u tries 0 le w) as [[r|le'] w']; auto.
Qed.

Lemma numbered_attempts_urls (u : string) (n : nat) :
  forall a, map fst (map (pair u) (seq a n)) = repeat u n.
Proof.
  induction n as [|n IH]; intros a; simpl; [reflexivity|].
  now rewrite IH.
Qed.

Lemma numbered_schedule_urls (tries : nat) (urls : list string) :
  map fst (numbered_schedule urls tries) = schedule urls tries.
Proof.
  unfold numbered_schedule, schedule.
  induction urls as [|u urls IH]; simpl; [reflexivity|].
  now rewrite map_app, IH, numbered_attempts_urls.
Qed.

Lemma schedule_length (urls : list string) (tries : nat) :
  List.length (schedule urls tries) = List.length urls * tries.
Proof.
  unfold schedule. induction urls as [|u urls IH]; simpl; [reflexivity|].
  now rewrite length_app, repeat_length, IH.
Qed.

Lemma succeeds_false_throws (k : nat) (u : string) :
  succeeds k u = false ->
  exists e, attempt_body u (network k u) = Throw e.
Proof.
  unfold succeeds, attempt_body, parse_checked, inner_try.
  destruct (network k u) as [e|res]; [eauto|].
  destruct (JSON_parse (text res)) as [d|e]; [|eauto].
  intros ->. simpl. eauto.
Qed.

Lemma succeeds_true_returns (k : nat) (u : string) (res : response) (d : value) :
  network k u = Responded res ->
  JSON_parse (text res) = Return d ->
  ok res = true ->
  attempt_body u (network k u) = Return (mkFetched d u).
Proof.
  intros Hn Hp Hok.
  unfold attempt_body, parse_checked, inner_try.
  now rewrite Hn, Hp, Hok.
Qed.

Lemma last_cons {A : Type} (l : list A) (a d : A) :
  last (a :: l) d = last l a.
Proof.
  revert a d. induction l as [|b l IH]; intros a d; [reflexivity|].
  change (last (a :: b :: l) d) with (last (b :: l) d).
  now rewrite !IH.
Qed.

Lemma after_failures_fetched (pre : list (string * nat)) :
  forall w,
    fetched_rev (after_failures pre w) = (rev (map fst pre) ++ fetched_rev w)%list.
Proof.
  unfold after_failures.
  induction pre as [|p pre IH]; intros w; simpl; [reflexivity|].
  rewrite IH. simpl. now rewrite <- app_assoc.
Qed.

Lemma after_failures_requests (pre : list (string * nat)) :
  forall w, requests (after_failures pre w) = requests w + List.length pre.
Proof.
  unfold after_failures.
  induction pre as [|p pre IH]; intros w; simpl; [lia|].
  rewrite IH. simpl. lia.
Qed.

Lemma after_failures_waits (pre : list (string * nat)) :
  forall w,
    waits_rev (after_failures pre w)
    = (rev (map (fun p => backoff (snd p)) pre) ++ waits_rev w)%list.
Proof.
  unfold after_failures.
  induction pre as [|p pre IH]; intros w; simpl; [reflexivity|].
  rewrite IH. simpl. now rewrite <- app_assoc.
Qed.

(** A failing prefix of the schedule is passed over: it leaves its requests
    and waits in the world and hands the rest of the schedule the last
    error. *)
Lemma run_failing_prefix :
  forall pre rest le w,
    all_fail (requests w) (map fst pre) = true ->
    run (pre ++ rest)%list le w =
      run rest
          (match errors_from (requests w) (map fst pre) with
           | [] => le
           | e :: es => Some (last es e)
           end) (after_failures pre w)
    /\ List.length (errors_from (requests w) (map fst pre)) = List.length pre.
Proof.
  induction pre as [|[u a] pre IH]; intros rest le w Hf; simpl in *.
  - split; reflexivity.
  - apply andb_true_iff in Hf as [Hu Hf].
    apply negb_true_iff in Hu.
    destruct (succeeds_false_throws _ _ Hu) as [e He].
    rewrite He.
    set (w1 := Wait (backoff a) :: Fetch u :: w).
    assert (Hr : requests w1 = S (requests w)) by reflexivity.
    rewrite <- Hr in Hf.
    destruct (IH rest (Some e) w1 Hf) as (Hrun & Hlen).
    rewrite Hrun. rewrite Hr in *. simpl. rewrite Hlen.
    split; [|reflexivity].
    unfold after_failures. simpl. fold w1. f_equal.
    destruct (errors_from (S (requests w)) (map fst pre)) as [|e' es];
      [reflexivity|].
    now rewrite last_cons.
Qed.

Lemma seq_split_at (i tries : nat) :
  i < tries ->
  seq 0 tries = (seq 0 i ++ i :: seq (S i) (tries - S i))%list.
Proof.
  intros Hi.
  replace tries with (i + S (tries - S i)) at 1 by lia.
  now rewrite seq_app.
Qed.

Lemma numbered_schedule_split
  (before : list string) (u : string) (after : list string) (tries i : nat) :
  i < tries ->
  numbered_schedule (before ++ u :: after)%list tries
  = ((numbered_schedule before tries ++ map (pair u) (seq 0 i))
     ++ (u, i) :: (map (pair u) (seq (S i) (tries - S i))
                   ++ numbered_schedule after tries))%list.
Proof.
  intros Hi. unfold numbered_schedule.
  set (f := fun u0 : string => map (pair u0) (seq 0 tries)).
  rewrite flat_map_app. simpl.
  replace (f u)
    with (map (pair u) (seq 0 i)
          ++ (u, i) :: map (pair u) (seq (S i) (tries - S i)))%list.
  - now rewrite <- !app_assoc.
  - unfold f. now rewrite (seq_split_at i tries Hi), map_app.
Qed.

(** C1.  Endpoints are tried in list order, each [tries] times; at the first
    attempt whose body parses as JSON under a 2xx status the call resolves
    to the parsed body and that endpoint.  Up to then the requests issued
    are exactly: [tries] to every earlier endpoint, in order, then the
    attempts made on this endpoint, the successful one being the last; no
    later endpoint is contacted. *)
Theorem tryFetchJson_first_success
  (before : list string) (u : string) (after : list string)
  (tries i : nat) (w : world) (res : response) (d : value) :
  i < tries ->
  all_fail (requests w) (schedule before tries ++ repeat u i)%list = true ->
  network (requests w + (List.length before * tries + i)) u = Responded res ->
  JSON_parse (text res) = Return d ->
  ok res = true ->
  exists w',
    tryFetchJson (before ++ u :: after)%list tries w
      = (Return (mkFetched d u), w')
    /\ fetched w' = (fetched w ++ schedule before tries ++ repeat u (S i))%list.
Proof.
  intros Hi Hfail Hnet Hparse Hok.
  unfold tryFetchJson.
  rewrite endpoints_run, (numbered_schedule_split before u after tries i Hi).
  set (pre := (numbered_schedule before tries ++ map (pair u) (seq 0 i))%list).
  assert (Hpre : map fst pre = (schedule before tries ++ repeat u i)%list).
  { subst pre. now rewrite map_app, numbered_schedule_urls, numbered_attempts_urls. }
  rewrite <- Hpre in Hfail.
  match goal with
  | |- context [run (pre ++ ?r)%list _ _] =>
      destruct (run_failing_prefix pre r None w Hfail) as (Hrun & _)
  end.
  rewrite Hrun. simpl.
  assert (Hlen : List.length pre = List.length before * tries + i).
  { rewrite <- (length_map fst pre), Hpre, length_app, schedule_length,
      repeat_length. reflexivity. }
  rewrite after_failures_requests, Hlen.
  rewrite (succeeds_true_returns _ _ _ _ Hnet Hparse Hok).
  eexists. split; [reflexivity|].
  unfold fetched. simpl.
  rewrite after_failures_fetched, rev_app_distr, rev_involutive, Hpre.
  rewrite <- !app_assoc. do 2 f_equal.
  symmetry. apply repeat_cons.
Qed.

(** C2.  When no attempt succeeds the call makes every attempt of the
    schedule, [|urls| * tries] requests in all, each recording an error, and
    throws the error recorded last; with nothing recorded it throws the
    generic error. *)
Theorem tryFetchJson_exhausted (urls : list string) (tries : nat) (w : world) :
  all_fail (requests w) (schedule urls tries) = true ->
  exists w',
    tryFetchJson urls tries w
      = (Throw (last (errors_from (requests w) (schedule urls tries))
                     (Error "All fetch attempts failed")), w')
    /\ fetched w' = (fetched w ++ schedule urls tries)%list
    /\ requests w' = requests w + List.length urls * tries
    /\ List.length (errors_from (requests w) (schedule urls tries))
       = List.length urls * tries.
Proof.
  intros Hfail.
  unfold tryFetchJson. rewrite endpoints_run.
  rewrite <- numbered_schedule_urls in *.
  destruct (run_failing_prefix (numbered_schedule urls tries) [] None w Hfail)
    as (Hrun & Hlen).
  rewrite app_nil_r in Hrun.
  assert (Hn : List.length (numbered_schedule urls tries)
               = List.length urls * tries).
  { now rewrite <- (length_map fst), numbered_schedule_urls, schedule_length. }
  exists (after_failures (numbered_schedule urls tries) w).
  rewrite Hrun, after_failures_requests, Hlen, Hn. simpl.
  repeat split.
  - do 2 f_equal.
    destruct (errors_from (requests w) (map fst (numbered_schedule urls tries)))
      as [|e es]; [reflexivity|].
    now rewrite last_cons.
  - unfold fetched.
    now rewrite after_failures_fetched, rev_app_distr, rev_involutive.
Qed.

(** Between the attempts of an exhausted call the waits are 500 ms doubled
    with every attempt on the same endpoint, starting again at 500 ms for
    the next endpoint; a wait follows the last attempt too. *)
Lemma tryFetchJson_exhausted_backoff (urls : list string) (tries : nat) (w : world) :
  all_fail (requests w) (schedule urls tries) = true ->
  waits (snd (tryFetchJson urls tries w))
  = (waits w ++ flat_map (fun _ => map backoff (seq 0 tries)) urls)%list.
Proof.
  intros Hfail.
  unfold tryFetchJson. rewrite endpoints_run.
  rewrite <- numbered_schedule_urls in Hfail.
  destruct (run_failing_prefix (numbered_schedule urls tries) [] None w Hfail)
    as (Hrun & _).
  rewrite app_nil_r in Hrun. rewrite Hrun. simpl.
  unfold waits. rewrite after_failures_waits, rev_app_distr, rev_involutive.
  f_equal. unfold numbered_schedule. clear Hfail Hrun.
  induction urls as [|u urls IH]; simpl; [reflexivity|].
  rewrite map_app, IH, map_map. reflexivity.
Qed.

(** With no endpoint, or with a budget of zero, nothing is requested and
    nothing recorded: the generic error is thrown. *)
Lemma tryFetchJson_nothing_to_try (urls : list string) (tries : nat) (w : world) :
  urls = [] \/ tries = 0 ->
  tryFetchJson urls tries w = (Throw (Error "All fetch attempts failed"), w).
Proof.
  intros [-> | ->]; [reflexivity|].
  unfold tryFetchJson. induction urls as [|u urls IH]; simpl; auto.
Qed.

(** What line 39 throws never leaves the inner [try]: the [catch] of line
    42 replaces it. *)
Lemma status_error_replaced (u : string) (res : response) (d : value) :
  JSON_parse (text res) = Return d ->
  ok res = false ->
  inner_try JSON_parse u res = Throw (http_error res)
  /\ attempt_body u (Responded res) = Throw (non_json_error u res).
Proof.
  intros Hp Hok.
  unfold attempt_body, parse_checked, inner_try. now rewrite Hp, Hok.
Qed.

End FetcherProperties.

Lemma tryFetchJson_first_success_witness :
  (0 < 3
   /\ all_fail Sample.JSON_parse Sample.e1_down (requests [])
        (schedule [Sample.E1] 3 ++ repeat Sample.E2 0)%list = true
   /\ Sample.e1_down (requests [] + (List.length [Sample.E1] * 3 + 0)) Sample.E2
      = Responded Sample.fine
   /\ Sample.JSON_parse (text Sample.fine) = Return (VObj [])
   /\ ok Sample.fine = true)
  /\ exists w',
       tryFetchJson Sample.JSON_parse Sample.e1_down
         ([Sample.E1] ++ Sample.E2 :: [])%list 3 []
         = (Return (mkFetched (VObj []) Sample.E2), w')
       /\ fetched w'
          = (fetched [] ++ schedule [Sample.E1] 3 ++ repeat Sample.E2 1)%list.
Proof.
  split.
  - repeat split; try reflexivity. apply Nat.lt_0_succ.
  - apply (tryFetchJson_first_success Sample.JSON_parse Sample.e1_down
             [Sample.E1] Sample.E2 [] 3 0 [] Sample.fine (VObj []));
      try reflexivity.
    apply Nat.lt_0_succ.
Defined.

Lemma tryFetchJson_exhausted_witness :
  all_fail Sample.JSON_parse Sample.all_down (requests [])
    (schedule [Sample.E1; Sample.E2] 3) = true
  /\ exists w',
       tryFetchJson Sample.JSON_parse Sample.all_down [Sample.E1; Sample.E2] 3 []
         = (Throw (last (errors_from Sample.JSON_parse Sample.all_down
                           (requests []) (schedule [Sample.E1; Sample.E2] 3))
                        (Error "All fetch attempts failed")), w')
       /\ fetched w' = (fetched [] ++ schedule [Sample.E1; Sample.E2] 3)%list
       /\ requests w' = requests [] + List.length [Sample.E1; Sample.E2] * 3
       /\ List.length (errors_from Sample.JSON_parse Sample.all_down
                         (requests []) (schedule [Sample.E1; Sample.E2] 3))
          = List.length [Sample.E1; Sample.E2] * 3.
Proof.
  split.
  - reflexivity.
  - apply (tryFetchJson_exhausted Sample.JSON_parse Sample.all_down
             [Sample.E1; Sample.E2] 3 []).
    reflexivity.
Defined.

(** C7, on the code as written.  One endpoint, one attempt, answered with
    status 500, status text Internal Server Error and the JSON body of an
    empty object: the error the call ends with is the non-JSON one.  It
    names the status code and not the status text. *)
Theorem http_status_text_lost :
  let msg := "Non-JSON response from https://e1.example/api (status 500) "
             ++ em_dash ++ " first chars: {}" in
  tryFetchJson Sample.JSON_parse Sample.all_broken [Sample.E1] 1 []
    = (Throw (Error msg), [Wait 500; Fetch Sample.E1])
  /\ Js.includes (Js.dec (status Sample.broken)) msg = true
  /\ Js.includes (statusText Sample.broken) msg = false
  /\ inner_try Sample.JSON_parse Sample.E1 Sample.broken
     = Throw (Error "HTTP 500 Internal Server Error").
Proof.
  cbv zeta. repeat split; vm_compute; reflexivity.
Qed.

(** ** The escaping helpers *)

Lemma append_assoc_string (a b c : string) :
  ((a ++ b) ++ c = a ++ (b ++ c))%string.
Proof.
  induction a as [|x a IH]; simpl; [reflexivity|]. now rewrite IH.
Qed.

Lemma replace_each_app (f : ascii -> string) (a b : string) :
  Js.replace_each f (a ++ b) = (Js.replace_each f a ++ Js.replace_each f b)%string.
Proof.
  induction a as [|x a IH]; simpl; [reflexivity|].
  now rewrite IH, append_assoc_string.
Qed.

(** No entity contains a double quote, and a character that [escapeHtml]
    leaves alone is not one. *)
Lemma pct22_entity (c : ascii) :
  Js.replace_each Escape.pct22 (Escape.entity c) = Escape.entity c.
Proof.
  unfold Escape.entity.
  destruct (nat_of_ascii c =? 38); [reflexivity|].
  destruct (nat_of_ascii c =? 60); [reflexivity|].
  destruct (nat_of_ascii c =? 62); [reflexivity|].
  destruct (nat_of_ascii c =? 34) eqn:E; [reflexivity|].
  destruct (nat_of_ascii c =? 39); [reflexivity|].
  simpl. unfold Escape.pct22. now rewrite E.
Qed.

(** C10.  On every string [escapeHtmlAttr] returns what [escapeHtml]
    returns: the second replacement finds no double quote to replace. *)
Theorem escapeHtmlAttr_is_escapeHtml (s : string) :
  Escape.escapeHtmlAttr s = Escape.escapeHtml s.
Proof.
  unfold Escape.escapeHtmlAttr, Escape.escapeHtml.
  destruct (String.eqb s ""); [reflexivity|].
  induction s as [|c s IH]; simpl; [reflexivity|].
  now rewrite replace_each_app, pct22_entity, IH.
Qed.

(** The replacement would fire on a raw double quote; [escapeHtml] leaves
    none. *)
Example escapeHtmlAttr_sample :
  Escape.escapeHtmlAttr (String Js.dquote "a<b")
  = "&quot;a&lt;b"
  /\ Js.replace_each Escape.pct22 (String Js.dquote "a") = "%22a".
Proof. split; reflexivity. Qed.

(** ** Order on numbers *)

Lemma Qle_bool_sub (a b : Q) : Qle_bool (a - b) 0 = Qle_bool a b.
Proof.
  apply eq_true_iff_eq. rewrite !Qle_bool_iff. split; intros; lra.
Qed.

(** A positive difference is a strict inequality, as long as neither side
    is NaN. *)
Lemma positive_difference (a b : number) :
  Num.isNaN a = false -> Num.isNaN b = false ->
  Num.ltb (Fin 0) (Num.sub a b) = Num.ltb b a.
Proof.
  destruct a as [| | |a], b as [| | |b]; simpl; try discriminate; auto.
  intros _ _. unfold Num.Qltb. now rewrite Qle_bool_sub.
Qed.

Lemma not_lt_le (a b : number) :
  Num.isNaN a = false -> Num.isNaN b = false ->
  Num.ltb b a = false -> Num.leb a b = true.
Proof.
  destruct a as [| | |a], b as [| | |b]; simpl; try discriminate; auto.
  unfold Num.Qltb. intros _ _ H. now apply negb_false_iff in H.
Qed.

Lemma lt_le (a b : number) : Num.ltb a b = true -> Num.leb a b = true.
Proof.
  destruct a as [| | |a], b as [| | |b]; simpl; try discriminate; auto.
  unfold Num.Qltb. intros H. apply negb_true_iff in H.
  apply Qle_bool_iff.
  destruct (Qlt_le_dec a b) as [Hlt|Hle]; [lra|].
  apply Qle_bool_iff in Hle. congruence.
Qed.

Lemma leb_trans (a b c : number) :
  Num.leb a b = true -> Num.leb b c = true -> Num.leb a c = true.
Proof.
  destruct a as [| | |a], b as [| | |b], c as [| | |c]; simpl;
    try discriminate; auto.
  rewrite !Qle_bool_iff. intros; lra.
Qed.

(** ** Array.prototype.sort *)

Lemma Forall_permutation {A : Type} (P : A -> Prop) (l l' : list A) :
  Permutation l l' -> Forall P l -> Forall P l'.
Proof.
  intros Hp Hl. rewrite Forall_forall in *.
  intros x Hx. apply Hl. eapply Permutation_in; [symmetry|]; eauto.
Qed.

Lemma in_firstn {A : Type} (n : nat) (l : list A) (x : A) :
  In x (firstn n l) -> In x l.
Proof.
  intros H. rewrite <- (firstn_skipn n l). apply in_or_app. now left.
Qed.

Section SortProperties.

Context {A : Type}.
Variable key : A -> number.

Local Abbreviation by_key := (by_key key).
Local Abbreviation key_le := (key_le key).

Lemma insert_permutation (x : A) (l : list A) :
  Permutation (Arr.insert by_key x l) (x :: l).
Proof.
  induction l as [|y l IH]; simpl; [reflexivity|].
  destruct (Arr.after by_key x y); [|reflexivity].
  rewrite IH. apply perm_swap.
Qed.

(** The result holds the elements it was given, each as often. *)
Lemma sort_permutation (l : list A) : Permutation (Arr.sort by_key l) l.
Proof.
  induction l as [|x l IH]; simpl; [reflexivity|].
  now rewrite insert_permutation, IH.
Qed.

Lemma sort_length (l : list A) : List.length (Arr.sort by_key l) = List.length l.
Proof. apply Permutation_length, sort_permutation. Qed.

Lemma insert_sorted (x : A) (l : list A) :
  Num.isNaN (key x) = false ->
  Forall (fun y => Num.isNaN (key y) = false) l ->
  StronglySorted key_le l ->
  StronglySorted key_le (Arr.insert by_key x l).
Proof.
  intros Hx Hl Hs. induction Hs as [|y l Hs IH Hy]; simpl.
  - repeat constructor.
  - inversion Hl as [|? ? Hny Hnl]; subst.
    unfold Arr.after, by_key at 1.
    rewrite (positive_difference _ _ Hx Hny).
    destruct (Num.ltb (key y) (key x)) eqn:E.
    + constructor; [auto|].
      apply (Forall_permutation _ (x :: l)).
      * symmetry. apply insert_permutation.
      * constructor; [|exact Hy]. now apply lt_le.
    + assert (Hxy : key_le x y) by now apply not_lt_le.
      constructor; [now constructor|].
      constructor; [exact Hxy|].
      apply (Forall_impl (P := key_le y)); [|exact Hy].
      intros z Hyz. unfold key_le in *. eapply leb_trans; eauto.
Qed.

(** With no NaN among the keys the result is in ascending order of key. *)
Lemma sort_sorted (l : list A) :
  Forall (fun y => Num.isNaN (key y) = false) l ->
  StronglySorted key_le (Arr.sort by_key l).
Proof.
  induction l as [|x l IH]; intros Hl; simpl; [constructor|].
  inversion Hl; subst.
  apply insert_sorted; auto.
  apply (Forall_permutation _ l); [|assumption].
  symmetry. apply sort_permutation.
Qed.

Lemma firstn_sorted (n : nat) (l : list A) :
  StronglySorted key_le l -> StronglySorted key_le (firstn n l).
Proof.
  intros Hs. revert n. induction Hs as [|y l Hs IH Hy]; intros [|n]; simpl;
    try constructor; auto.
  apply Forall_forall. intros z Hz.
  rewrite Forall_forall in Hy. apply Hy. eapply in_firstn; eauto.
Qed.

(** In a sorted list whatever comes first is below whatever comes later. *)
Lemma sorted_app_le (l1 l2 : list A) :
  StronglySorted key_le (l1 ++ l2)%list ->
  forall a b, In a l1 -> In b l2 -> key_le a b.
Proof.
  induction l1 as [|x l1 IH]; simpl; intros Hs a b Ha Hb; [contradiction|].
  inversion Hs as [|? ? Hs' Hx]; subst.
  destruct Ha as [->|Ha]; [|eauto].
  rewrite Forall_forall in Hx. apply Hx, in_or_app. now right.
Qed.

End SortProperties.

(** ** Blank input *)

Lemma trimStart_all_space (s : string) :
  Js.all_space s = true -> Js.trimStart s = "".
Proof.
  induction s as [|c s IH]; simpl; [reflexivity|].
  intros H. apply andb_true_iff in H as [Hc Hs]. rewrite Hc. auto.
Qed.

Lemma trim_all_space (s : string) :
  Js.all_space s = true -> Js.trim s = "".
Proof.
  intros H. unfold Js.trim. now rewrite trimStart_all_space.
Qed.

Section SearchProperties.

Variable JSON_parse : string -> completion value.
Variable network : nat -> string -> fetch_outcome.
Variable parseFloat_string : string -> number.
Variable number_to_string : number -> string.
Variable encodeURIComponent : string -> completion string.
Variable haversine : number -> number -> number -> number -> number.

Local Abbreviation searchHospitals :=
  (searchHospitals JSON_parse network parseFloat_string number_to_string
     encodeURIComponent haversine).
Local Abbreviation present :=
  (present parseFloat_string number_to_string haversine).
Local Abbreviation build_items := (build_items parseFloat_string number_to_string).
Local Abbreviation map_locate := (map_locate parseFloat_string number_to_string).
Local Abbreviation locate := (locate parseFloat_string number_to_string).
Local Abbreviation parseFloat := (parseFloat parseFloat_string number_to_string).
Local Abbreviation rank := (rank haversine).
Local Abbreviation attach_distance := (attach_distance haversine).
Local Abbreviation located := (located parseFloat_string number_to_string).

(** C8.  When the place field is empty or holds only white space the search
    ends at once with the invalid-input message, and the world is the one
    it started in: no request was issued, to the geocoders or to Overpass. *)
Theorem searchHospitals_blank_input (input : string) (w : world) :
  Js.all_space input = true ->
  searchHospitals input w = (InvalidInput, w)
  /\ fetched (snd (searchHospitals input w)) = fetched w.
Proof.
  intros H. unfold searchHospitals. rewrite (trim_all_space input H). simpl.
  split; reflexivity.
Qed.

Ltac case_split :=
  repeat match goal with
         | H : context [if ?c then _ else _] |- _ => destruct c eqn:?
         | H : context [match ?x with _ => _ end] |- _ => destruct x eqn:?
         end.

Lemma coordinate_resolves (e : value) (k : string) (v : value) :
  coordinate e k = Return v -> resolves e k v.
Proof.
  unfold coordinate. intros H.
  destruct (Val.get e k) as [d|] eqn:Hd; [|discriminate].
  destruct (Val.is_defined d) eqn:Hdef.
  - injection H as <-. now apply from_field.
  - destruct d; try discriminate.
    destruct (Val.get e "center") as [c|] eqn:Hc; [|discriminate].
    destruct (Val.truthy c) eqn:Ht.
    + eapply from_center; eauto.
    + injection H as <-. eapply without_center; eauto.
Qed.

Lemma locate_located (e : value) (i : item) :
  locate e = Return i -> located e i.
Proof.
  unfold locate. intros H.
  destruct (coordinate e "lat") as [la|] eqn:Hla; [|discriminate].
  destruct (coordinate e "lon") as [lo|] eqn:Hlo; [|discriminate].
  destruct (parseFloat la) as [x|] eqn:Hx; [|discriminate].
  destruct (parseFloat lo) as [y|] eqn:Hy; [|discriminate].
  injection H as <-. split; [reflexivity|].
  exists la, lo. repeat split; auto using coordinate_resolves.
Qed.

Lemma map_locate_located (els : list value) :
  forall mapped,
    map_locate els = Return mapped -> Forall2 located els mapped.
Proof.
  induction els as [|e els IH]; simpl; intros mapped H.
  - injection H as <-. constructor.
  - destruct (locate e) as [i|] eqn:Hi; [|discriminate].
    destruct (map_locate els) as [rest|] eqn:Hr; [|discriminate].
    injection H as <-. constructor; auto using locate_located.
Qed.

Lemma build_items_filter (els : list value) (items : list item) :
  build_items els = Return items ->
  exists mapped,
    map_locate els = Return mapped
    /\ items = filter has_coordinates mapped
    /\ List.length mapped = List.length els.
Proof.
  unfold build_items. intros H.
  destruct (map_locate els) as [mapped|] eqn:Hm; [|discriminate].
  injection H as <-. exists mapped. repeat split.
  symmetry. eapply Forall2_length, map_locate_located, Hm.
Qed.

(** Without an element list, or with a falsy value in its place, the
    outcome is the no-results one. *)
Lemma present_falsy (lat lon : number) (place : string) (json e0 : value) :
  Val.get json "elements" = Return e0 ->
  Val.truthy e0 = false ->
  present lat lon place json = NoResultsInRadius place.
Proof.
  intros He Ht. unfold present. now rewrite He, Ht.
Qed.

(** With an element array the outcome depends on its length alone, then on
    whether the map over it throws. *)
Lemma present_array (lat lon : number) (place : string) (json : value)
  (els : list value) :
  Val.get json "elements" = Return (VArr els) ->
  present lat lon place json =
    match els with
    | [] => NoResultsInRadius place
    | _ :: _ =>
        match build_items els with
        | Throw e => UnexpectedFailure e
        | Return items => Found (List.length els) (rank lat lon items)
        end
    end.
Proof.
  intros He. unfold present. rewrite He.
  destruct els; reflexivity.
Qed.

(** The successful outcome comes from an element array that is not empty,
    reports its length, and shows the ranking of the retained items. *)
Lemma present_found_inv (lat lon : number) (place : string) (json : value)
  (total : nat) (toShow : list ranked) :
  present lat lon place json = Found total toShow ->
  exists els items,
    Val.get json "elements" = Return (VArr els)
    /\ els <> []
    /\ build_items els = Return items
    /\ total = List.length els
    /\ toShow = rank lat lon items.
Proof.
  intros H.
  destruct (Val.get json "elements") as [e0|] eqn:He.
  - destruct (Val.truthy e0) eqn:Ht.
    + destruct e0 as [| |b|n|s|els|props];
        try (unfold present in H; rewrite He, Ht in H; simpl in H;
             case_split; discriminate).
      rewrite (present_array _ _ _ _ _ He) in H.
      destruct els as [|e els]; [discriminate|].
      destruct (build_items (e :: els)) as [items|] eqn:Hb; [|discriminate].
      injection H as <- <-.
      exists (e :: els), items. repeat split; auto. discriminate.
    + rewrite (present_falsy _ _ _ _ _ He Ht) in H. discriminate.
  - unfold present in H. rewrite He in H. discriminate.
Qed.

Lemma rank_entries (lat lon : number) (items : list item) (r : ranked) :
  In r (rank lat lon items) ->
  In (entry r) items
  /\ distance r = haversine lat lon (lat2 (entry r)) (lon2 (entry r)).
Proof.
  unfold rank, Arr.slice0. intros H.
  apply in_firstn in H.
  apply (Permutation_in _ (sort_permutation distance _)) in H.
  apply in_map_iff in H as (i & <- & Hi). now split.
Qed.

Lemma rank_length (lat lon : number) (items : list item) :
  List.length (rank lat lon items) = Nat.min 30 (List.length items).
Proof.
  unfold rank, Arr.slice0.
  rewrite length_firstn.
  change (Arr.sort by_distance) with (Arr.sort (A := ranked) (by_key distance)).
  now rewrite sort_length, length_map.
Qed.

Lemma has_coordinates_filter (l : list item) :
  Forall (fun i => Num.isNaN (lat2 i) = false /\ Num.isNaN (lon2 i) = false)
         (filter has_coordinates l).
Proof.
  apply Forall_forall. intros i Hi.
  apply filter_In in Hi as [_ Hi]. unfold has_coordinates in Hi.
  apply andb_true_iff in Hi as [H1 H2].
  now rewrite negb_true_iff in H1, H2.
Qed.

(** C3, as the code has it.  The list shown holds min(30, retained)
    records, and with what is left out it makes up the retained records.
    When no computed distance is NaN it is in ascending order of distance
    and nothing left out is nearer than anything shown.  Five records at
    2.1, 0.5, 10.3, 1.0 and 7.7 km come out as 0.5, 1.0, 2.1, 7.7, 10.3;
    forty retained records give thirty. *)
Theorem present_ranked_ascending (lat lon : number) (place : string)
  (json : value) (total : nat) (toShow : list ranked) :
  present lat lon place json = Found total toShow ->
  exists els items,
    Val.get json "elements" = Return (VArr els)
    /\ build_items els = Return items
    /\ List.length toShow = Nat.min 30 (List.length items)
    /\ (exists rest,
          Permutation (map (attach_distance lat lon) items) (toShow ++ rest)%list
          /\ (Forall (fun i => Num.isNaN (haversine lat lon (lat2 i) (lon2 i)) = false)
                     items ->
              StronglySorted
                (fun a b => Num.leb (distance a) (distance b) = true) toShow
              /\ forall a b, In a toShow -> In b rest ->
                             Num.leb (distance a) (distance b) = true))
    /\ (map (fun i => haversine lat lon (lat2 i) (lon2 i)) items
          = [Fin (21 # 10); Fin (1 # 2); Fin (103 # 10); Fin 1; Fin (77 # 10)] ->
        map distance toShow
          = [Fin (1 # 2); Fin 1; Fin (21 # 10); Fin (77 # 10); Fin (103 # 10)])
    /\ (List.length items = 40 -> List.length toShow = 30).
Proof.
  intros H.
  destruct (present_found_inv _ _ _ _ _ _ H) as (els & items & He & _ & Hb & _ & ->).
  exists els, items. split; [exact He|]. split; [exact Hb|].
  split; [apply rank_length|].
  split; [|split].
  - set (scored := map (attach_distance lat lon) items).
    set (sorted := Arr.sort (by_key distance) scored).
    exists (skipn 30 sorted).
    change (rank lat lon items) with (firstn 30 sorted).
    rewrite firstn_skipn. split.
    + symmetry. apply sort_permutation.
    + intros Hnan.
      assert (Hs : StronglySorted (key_le distance) sorted).
      { apply sort_sorted. subst scored. now apply Forall_map. }
      split.
      * now apply firstn_sorted.
      * apply (sorted_app_le distance). now rewrite firstn_skipn.
  - intros Hd.
    destruct items as [|i1 [|i2 [|i3 [|i4 [|i5 [|i6 items]]]]]]; try discriminate.
    simpl in Hd. injection Hd as H1 H2 H3 H4 H5.
    unfold rank, attach_distance. simpl map.
    rewrite H1, H2, H3, H4, H5. reflexivity.
  - intros H40. now rewrite rank_length, H40.
Qed.

(** C4, as the code has it.  The count in the status line is the length of
    the element array as received; the number shown is min(30, retained),
    and retained is at most received. *)
Theorem found_reports_received_count (lat lon : number) (place : string)
  (json : value) (total : nat) (toShow : list ranked) :
  present lat lon place json = Found total toShow ->
  exists els items,
    Val.get json "elements" = Return (VArr els)
    /\ build_items els = Return items
    /\ total = List.length els
    /\ List.length toShow = Nat.min 30 (List.length items)
    /\ List.length items <= List.length els
    /\ status_text (Found total toShow)
       = ("Found " ++ Js.dec (List.length els) ++ " items; showing nearest "
          ++ Js.dec (Nat.min 30 (List.length items)) ++ ".")%string.
Proof.
  intros H.
  destruct (present_found_inv _ _ _ _ _ _ H) as (els & items & He & _ & Hb & -> & ->).
  exists els, items. repeat split; auto using rank_length.
  - destruct (build_items_filter _ _ Hb) as (mapped & _ & -> & <-).
    apply filter_length_le.
  - simpl. now rewrite rank_length.
Qed.

(** C5, as the code has it.  Each entry of the map carries its element and
    the parse of a raw latitude and longitude, each taken from the element's
    own field or else through its center.  Entries with a NaN latitude or
    longitude are filtered out before any distance is computed: every
    record shown is a retained entry, has neither coordinate NaN, and
    carries the distance of its own coordinates. *)
Theorem shown_records_have_coordinates (lat lon : number) (place : string)
  (json : value) (total : nat) (toShow : list ranked) :
  present lat lon place json = Found total toShow ->
  exists els mapped,
    Val.get json "elements" = Return (VArr els)
    /\ Forall2 located els mapped
    /\ toShow = rank lat lon (filter has_coordinates mapped)
    /\ (forall r, In r toShow ->
          In (entry r) mapped
          /\ Num.isNaN (lat2 (entry r)) = false
          /\ Num.isNaN (lon2 (entry r)) = false
          /\ distance r = haversine lat lon (lat2 (entry r)) (lon2 (entry r)))
    /\ (forall i, In i mapped ->
          Num.isNaN (lat2 i) = true \/ Num.isNaN (lon2 i) = true ->
          forall r, In r toShow -> entry r <> i).
Proof.
  intros H.
  destruct (present_found_inv _ _ _ _ _ _ H) as (els & items & He & _ & Hb & _ & ->).
  destruct (build_items_filter _ _ Hb) as (mapped & Hm & -> & _).
  assert (Hshown : forall r, In r (rank lat lon (filter has_coordinates mapped)) ->
            In (entry r) mapped
            /\ Num.isNaN (lat2 (entry r)) = false
            /\ Num.isNaN (lon2 (entry r)) = false
            /\ distance r = haversine lat lon (lat2 (entry r)) (lon2 (entry r))).
  { intros r Hr. apply rank_entries in Hr as [Hin Hd].
    pose proof (has_coordinates_filter mapped) as Hf.
    rewrite Forall_forall in Hf. destruct (Hf _ Hin) as [Hla Hlo].
    apply filter_In in Hin as [Hin _]. auto. }
  exists els, mapped. repeat split; auto using map_locate_located;
    try (now apply Hshown).
  intros i _ Hnan r Hr <-.
  destruct (Hshown r Hr) as (_ & Hla & Hlo & _).
  destruct Hnan; congruence.
Qed.

(** C6, as the code has it.  The no-results outcome is decided on the
    element list as received: it is the outcome when the list is missing,
    falsy or empty.  A list that is not empty and from which no item is
    retained ends in the successful outcome with nothing to show. *)
Theorem no_results_only_without_elements (lat lon : number) (place : string)
  (json e0 : value) :
  Val.get json "elements" = Return e0 ->
  (Val.truthy e0 = false \/ e0 = VArr [] ->
   present lat lon place json = NoResultsInRadius place)
  /\ (forall els,
        e0 = VArr els -> els <> [] -> build_items els = Return [] ->
        present lat lon place json = Found (List.length els) []).
Proof.
  intros He. split.
  - intros [Ht | ->].
    + eapply present_falsy; eauto.
    + now rewrite (present_array _ _ _ _ _ He).
  - intros els -> Hne Hb.
    rewrite (present_array _ _ _ _ _ He), Hb.
    destruct els; [congruence|reflexivity].
Qed.

(** The no-results outcome comes from an element list that is missing,
    falsy, an empty array, or an object whose [length] is zero. *)
Lemma present_no_results_inv (lat lon : number) (place p : string) (json : value) :
  present lat lon place json = NoResultsInRadius p ->
  p = place
  /\ exists e0,
       Val.get json "elements" = Return e0
       /\ (Val.truthy e0 = false
           \/ e0 = VArr []
           \/ exists props,
                e0 = VObj props
                /\ strict_eq_zero (Val.lookup "length" props) = true).
Proof.
  intros H.
  destruct (Val.get json "elements") as [e0|] eqn:He.
  - destruct (Val.truthy e0) eqn:Ht.
    + destruct e0 as [| |b|n|s|els|props];
        try (unfold present in H; rewrite He, Ht in H; simpl in H;
             case_split; discriminate).
      * destruct s as [|c s]; [discriminate Ht|].
        unfold present in H. rewrite He in H. discriminate H.
      * rewrite (present_array _ _ _ _ _ He) in H.
        destruct els as [|e els].
        -- injection H as <-. split; [reflexivity|]. exists (VArr []). auto.
        -- destruct (build_items (e :: els)); discriminate.
      * unfold present in H. rewrite He, Ht in H. simpl in H.
        destruct (strict_eq_zero (Val.lookup "length" props)) eqn:Hz;
          [|case_split; discriminate].
        injection H as <-. split; [reflexivity|].
        exists (VObj props). split; [reflexivity|]. right. right. eauto.
    + rewrite (present_falsy _ _ _ _ _ He Ht) in H. injection H as <-.
      split; [reflexivity|]. exists e0. auto.
  - unfold present in H. rewrite He in H. discriminate.
Qed.

(** A search that ends with a list to show, or with no results, ends with
    what lines 120-145 make of some parsed geodata answer. *)
Lemma searchHospitals_present_inv (input : string) (w w' : world) (o : outcome) :
  searchHospitals input w = (o, w') ->
  match o with
  | Found _ _ | NoResultsInRadius _ =>
      exists lat lon json, present lat lon (Js.trim input) json = o
  | _ => True
  end.
Proof.
  unfold searchHospitals. intros H.
  destruct (String.eqb (Js.trim input) "").
  { injection H as <- _. exact I. }
  destruct (geoEndpoints encodeURIComponent (Js.trim input)) as [gurls|e].
  2:{ injection H as <- _. exact I. }
  destruct (tryFetchJson JSON_parse network _ 2 w) as [[geo|e] w1].
  2:{ injection H as <- _. exact I. }
  destruct (data geo) as [| |b|n|s|[|g0 rest]|props];
    try (injection H as <- _; exact I).
  destruct (origin parseFloat_string number_to_string g0) as [[lat lon]|e].
  2:{ injection H as <- _. exact I. }
  unfold search_around in H.
  destruct (overpassUrls number_to_string encodeURIComponent lat lon)
    as [ourls|e].
  2:{ injection H as <- _. exact I. }
  destruct (tryFetchJson JSON_parse network _ 3 w1) as [[hosp|e] w2].
  2:{ injection H as <- _. exact I. }
  injection H as <- _.
  destruct (present lat lon (Js.trim input) (data hosp)) eqn:Hp; eauto.
Qed.

(** After a geocoding answer with a first candidate and a geodata answer,
    the search ends with what lines 120-145 make of the parsed geodata. *)
Lemma searchHospitals_presents (input : string) (w w1 w2 : world)
  (gurls ourls : list string)
  (geo hosp : fetched_json) (g0 : value) (rest : list value) (lat lon : number) :
  Js.trim input <> "" ->
  geoEndpoints encodeURIComponent (Js.trim input) = Return gurls ->
  tryFetchJson JSON_parse network gurls 2 w = (Return geo, w1) ->
  data geo = VArr (g0 :: rest) ->
  origin parseFloat_string number_to_string g0 = Return (lat, lon) ->
  overpassUrls number_to_string encodeURIComponent lat lon = Return ourls ->
  tryFetchJson JSON_parse network ourls 3 w1 = (Return hosp, w2) ->
  searchHospitals input w = (present lat lon (Js.trim input) (data hosp), w2).
Proof.
  intros Hne Hg Hgeo Hd Ho Hu Hov. unfold searchHospitals, search_around.
  apply String.eqb_neq in Hne. rewrite Hne, Hg, Hgeo, Hd, Ho, Hu, Hov.
  reflexivity.
Qed.

End SearchProperties.

(** ** The properties at the sample collaborators *)

Local Abbreviation sample_present :=
  (present Sample.parseFloat_string Sample.number_to_string Sample.haversine
     (Fin 0) (Fin 0) "Ooty").
Local Abbreviation sample_build_items :=
  (build_items Sample.parseFloat_string Sample.number_to_string).
Local Abbreviation sample_rank := (rank Sample.haversine (Fin 0) (Fin 0)).
Local Abbreviation sample_search :=
  (searchHospitals Sample.JSON_parse Sample.e1_down Sample.parseFloat_string
     Sample.number_to_string Sample.encodeURIComponent Sample.haversine).

Lemma searchHospitals_blank_input_witness :
  Js.all_space "   " = true
  /\ (sample_search "   " [] = (InvalidInput, [])
      /\ fetched (snd (sample_search "   " [])) = fetched []).
Proof.
  split.
  - reflexivity.
  - apply (searchHospitals_blank_input Sample.JSON_parse Sample.e1_down
             Sample.parseFloat_string Sample.number_to_string
             Sample.encodeURIComponent Sample.haversine "   " []).
    reflexivity.
Defined.

(** A whole search at the sample collaborators: one geocoding request, one
    geodata request, two elements received, one retained and shown. *)
Example searchHospitals_sample_run :
  let (o, w) :=
    searchHospitals Sample.JSON_parse Sample.serving Sample.parseFloat_string
      Sample.number_to_string Sample.encodeURIComponent Sample.haversine
      "Ooty" [] in
  o = Found 2
        [mkRanked
           (mkItem (VObj [("lat", VNum (Fin 11.5)); ("lon", VNum (Fin 76.7))])
                   (Fin 11.5) (Fin 76.7))
           (Fin 10.0071)]
  /\ status_text o = "Found 2 items; showing nearest 1."
  /\ List.length (fetched w) = 2
  /\ map (prefix "https://") (fetched w) = [true; true]
  /\ hd "" (fetched w)
     = "https://nominatim.openstreetmap.org/search?format=json&limit=1&q=Ooty, Tamil Nadu, India".
Proof. vm_compute. repeat split. Qed.

(** An input that is not blank does reach the network. *)
Example searchHospitals_contacts_geocoder :
  fetched (snd (sample_search " Ooty " []))
  = ["https://nominatim.openstreetmap.org/search?format=json&limit=1&q=Ooty, Tamil Nadu, India"].
Proof. reflexivity. Qed.

(** C3, counterexample.  A node one degree north of the origin, a node
    whose latitude is infinite and a node at the origin are all retained;
    the distance of the second is NaN, every comparison with it is a tie,
    and the list stays in the order received: 111.19 km comes before 0 km. *)
Lemma nan_distance_out_of_order :
  let shown := match sample_present (Sample.response_of Sample.overflowed) with
               | Found _ l => l
               | _ => []
               end in
  map distance shown = [Fin (11119 # 100); NaN; Fin 0]
  /\ Num.ltb (Fin 0) (Fin (11119 # 100)) = true
  /\ ~ StronglySorted (fun a b => Num.leb (distance a) (distance b) = true) shown.
Proof.
  cbv zeta. repeat split; try reflexivity.
  intros Hs. vm_compute in Hs.
  inversion Hs as [|? ? _ Hall]. inversion Hall as [|? ? Hnan _].
  discriminate Hnan.
Qed.

Lemma present_ranked_ascending_witness :
  sample_present (Sample.response_of (map Sample.at_km Sample.five))
    = Found 5 (sample_rank (map Sample.item_at Sample.five))
  /\ exists els items,
       Val.get (Sample.response_of (map Sample.at_km Sample.five)) "elements"
         = Return (VArr els)
       /\ sample_build_items els = Return items
       /\ List.length (sample_rank (map Sample.item_at Sample.five))
          = Nat.min 30 (List.length items)
       /\ (exists rest,
             Permutation
               (map (attach_distance Sample.haversine (Fin 0) (Fin 0)) items)
               (sample_rank (map Sample.item_at Sample.five) ++ rest)%list
             /\ (Forall (fun i => Num.isNaN (Sample.haversine (Fin 0) (Fin 0)
                                               (lat2 i) (lon2 i)) = false)
                        items ->
                 StronglySorted
                   (fun a b => Num.leb (distance a) (distance b) = true)
                   (sample_rank (map Sample.item_at Sample.five))
                 /\ forall a b,
                      In a (sample_rank (map Sample.item_at Sample.five)) ->
                      In b rest ->
                      Num.leb (distance a) (distance b) = true))
       /\ (map (fun i => Sample.haversine (Fin 0) (Fin 0) (lat2 i) (lon2 i)) items
             = [Fin (21 # 10); Fin (1 # 2); Fin (103 # 10); Fin 1; Fin (77 # 10)] ->
           map distance (sample_rank (map Sample.item_at Sample.five))
             = [Fin (1 # 2); Fin 1; Fin (21 # 10); Fin (77 # 10); Fin (103 # 10)])
       /\ (List.length items = 40 ->
           List.length (sample_rank (map Sample.item_at Sample.five)) = 30).
Proof.
  split.
  - reflexivity.
  - apply (present_ranked_ascending Sample.parseFloat_string
             Sample.number_to_string Sample.haversine (Fin 0) (Fin 0) "Ooty"
             (Sample.response_of (map Sample.at_km Sample.five)) 5).
    reflexivity.
Defined.

(** The two worked cases of C3 on sample responses: the five distances come
    out in ascending order, and forty located nodes give thirty records. *)
Example five_distances_reordered :
  sample_present (Sample.response_of (map Sample.at_km Sample.five))
    = Found 5 (sample_rank (map Sample.item_at Sample.five))
  /\ map distance (sample_rank (map Sample.item_at Sample.five))
     = [Fin (1 # 2); Fin 1; Fin (21 # 10); Fin (77 # 10); Fin (103 # 10)].
Proof. split; reflexivity. Qed.

Example forty_elements_thirty_records :
  match sample_present
          (Sample.response_of
             (map (fun n => Sample.at_km (Z.of_nat n)) (seq 1 40))) with
  | Found total shown =>
      total = 40 /\ List.length shown = 30
      /\ map distance shown
         = map (fun n => Fin (Qred (inject_Z (Z.of_nat n) / 100))) (seq 1 30)
  | _ => False
  end.
Proof. vm_compute. repeat split. Qed.

(** C4, counterexample.  Ten elements, two of them without coordinates:
    eight records are ranked and the status line counts ten. *)
Lemma found_count_includes_dropped :
  sample_present (Sample.response_of Sample.ten)
    = Found 10 (sample_rank (map Sample.item_at Sample.eight))
  /\ List.length (sample_rank (map Sample.item_at Sample.eight)) = 8
  /\ sample_build_items Sample.ten = Return (map Sample.item_at Sample.eight)
  /\ status_text (sample_present (Sample.response_of Sample.ten))
     = "Found 10 items; showing nearest 8.".
Proof. repeat split; reflexivity. Qed.

Lemma found_reports_received_count_witness :
  sample_present (Sample.response_of Sample.ten)
    = Found 10 (sample_rank (map Sample.item_at Sample.eight))
  /\ exists els items,
       Val.get (Sample.response_of Sample.ten) "elements" = Return (VArr els)
       /\ sample_build_items els = Return items
       /\ 10 = List.length els
       /\ List.length (sample_rank (map Sample.item_at Sample.eight))
          = Nat.min 30 (List.length items)
       /\ List.length items <= List.length els
       /\ status_text (Found 10 (sample_rank (map Sample.item_at Sample.eight)))
          = ("Found " ++ Js.dec (List.length els) ++ " items; showing nearest "
             ++ Js.dec (Nat.min 30 (List.length items)) ++ ".")%string.
Proof.
  split.
  - reflexivity.
  - apply (found_reports_received_count Sample.parseFloat_string
             Sample.number_to_string Sample.haversine (Fin 0) (Fin 0) "Ooty"
             (Sample.response_of Sample.ten) 10).
    reflexivity.
Defined.

(** C5, counterexample.  A node whose latitude is infinite is not dropped:
    it is the record shown, with a latitude that is not finite. *)
Lemma infinite_latitude_retained :
  sample_present (Sample.response_of [Sample.node PInf (Fin 0)])
    = Found 1 [mkRanked (mkItem (Sample.node PInf (Fin 0)) PInf (Fin 0)) NaN]
  /\ Num.isFinite PInf = false.
Proof. split; reflexivity. Qed.

Lemma shown_records_have_coordinates_witness :
  sample_present (Sample.response_of Sample.mixed)
    = Found 3 (sample_rank
                 [Sample.item_at 210;
                  mkItem (Sample.way (Fin 1) (Fin 0)) (Fin 1) (Fin 0)])
  /\ exists els mapped,
       Val.get (Sample.response_of Sample.mixed) "elements" = Return (VArr els)
       /\ Forall2 (located Sample.parseFloat_string Sample.number_to_string)
                  els mapped
       /\ sample_rank [Sample.item_at 210;
                       mkItem (Sample.way (Fin 1) (Fin 0)) (Fin 1) (Fin 0)]
          = sample_rank (filter has_coordinates mapped)
       /\ (forall r,
             In r (sample_rank
                     [Sample.item_at 210;
                      mkItem (Sample.way (Fin 1) (Fin 0)) (Fin 1) (Fin 0)]) ->
             In (entry r) mapped
             /\ Num.isNaN (lat2 (entry r)) = false
             /\ Num.isNaN (lon2 (entry r)) = false
             /\ distance r
                = Sample.haversine (Fin 0) (Fin 0) (lat2 (entry r)) (lon2 (entry r)))
       /\ (forall i, In i mapped ->
             Num.isNaN (lat2 i) = true \/ Num.isNaN (lon2 i) = true ->
             forall r,
               In r (sample_rank
                       [Sample.item_at 210;
                        mkItem (Sample.way (Fin 1) (Fin 0)) (Fin 1) (Fin 0)]) ->
               entry r <> i).
Proof.
  split.
  - reflexivity.
  - apply (shown_records_have_coordinates Sample.parseFloat_string
             Sample.number_to_string Sample.haversine (Fin 0) (Fin 0) "Ooty"
             (Sample.response_of Sample.mixed) 3).
    reflexivity.
Defined.

(** C6, counterexample.  One element, without coordinates: nothing is
    retained, and the outcome is the successful one with an empty list. *)
Lemma unlocated_elements_not_no_results :
  sample_build_items [Sample.bare] = Return []
  /\ sample_present (Sample.response_of [Sample.bare]) = Found 1 []
  /\ status_text (sample_present (Sample.response_of [Sample.bare]))
     = "Found 1 items; showing nearest 0.".
Proof. repeat split; reflexivity. Qed.

Lemma no_results_only_without_elements_witness :
  Val.get (VObj [("version", VNum (Fin (6 # 10)))]) "elements" = Return VUndefined
  /\ ((Val.truthy VUndefined = false \/ VUndefined = VArr [] ->
       sample_present (VObj [("version", VNum (Fin (6 # 10)))])
       = NoResultsInRadius "Ooty")
      /\ (forall els,
            VUndefined = VArr els -> els <> [] ->
            sample_build_items els = Return [] ->
            sample_present (VObj [("version", VNum (Fin (6 # 10)))])
            = Found (List.length els) [])).
Proof.
  split.
  - reflexivity.
  - apply (no_results_only_without_elements Sample.parseFloat_string
             Sample.number_to_string Sample.haversine (Fin 0) (Fin 0) "Ooty"
             (VObj [("version", VNum (Fin (6 # 10)))]) VUndefined).
    reflexivity.
Defined.

(* ================================================================== *)
(** * Part III: further properties *)
(* ================================================================== *)

(** ** The fetcher under any network *)

Section FetcherFurther.

Variable JSON_parse : string -> completion value.
Variable network : nat -> string -> fetch_outcome.

Local Abbreviation attempt_body := (attempt_body JSON_parse).
Local Abbreviation tryFetchJson := (tryFetchJson JSON_parse network).
Local Abbreviation succeeds := (succeeds JSON_parse network).
Local Abbreviation all_fail := (all_fail JSON_parse network).
Local Abbreviation run := (run JSON_parse network).

(** An attempt returns only what a 2xx response with a JSON body gives. *)
Lemma attempt_body_return (u : string) (o : fetch_outcome) (r : fetched_json) :
  attempt_body u o = Return r ->
  url r = u
  /\ exists res,
       o = Responded res
       /\ JSON_parse (text res) = Return (data r)
       /\ ok res = true.
Proof.
  unfold attempt_body, parse_checked, inner_try.
  destruct o as [e|res]; [discriminate|].
  destruct (JSON_parse (text res)) as [d|e] eqn:Hp; [|discriminate].
  destruct (ok res) eqn:Hok; simpl; [|discriminate].
  intros H. injection H as <-. simpl.
  split; [reflexivity|]. exists res. auto.
Qed.

Lemma attempt_body_succeeds (k : nat) (u : string) :
  succeeds k u = true <-> exists r, attempt_body u (network k u) = Return r.
Proof.
  unfold succeeds, attempt_body, parse_checked, inner_try.
  destruct (network k u) as [e|res].
  - split; [discriminate|]. intros [r H]. discriminate.
  - destruct (JSON_parse (text res)) as [d|e].
    + destruct (ok res); simpl; split; eauto; try discriminate.
      intros [r H]. discriminate.
    + split; [discriminate|]. intros [r H]. discriminate.
Qed.

(** A pass over a schedule either fails throughout, or stops at its first
    attempt that succeeds. *)
Lemma run_cases :
  forall sched le w,
    (all_fail (requests w) (map fst sched) = true
     /\ exists e, run sched le w = (Throw e, after_failures sched w))
    \/ (exists pre u a post r,
          sched = (pre ++ (u, a) :: post)%list
          /\ all_fail (requests w) (map fst pre) = true
          /\ attempt_body u (network (requests w + List.length pre) u) = Return r
          /\ run sched le w = (Return r, Fetch u :: after_failures pre w)).
Proof.
  induction sched as [|[u a] sched IH]; intros le w.
  - left. split; [reflexivity|]. simpl. eauto.
  - simpl.
    destruct (attempt_body u (network (requests w) u)) as [r|err] eqn:Ha.
    + right. exists [], u, a, sched, r. simpl. rewrite Nat.add_0_r. auto.
    + assert (Hs : succeeds (requests w) u = false).
      { destruct (succeeds (requests w) u) eqn:Hs; [|reflexivity].
        apply attempt_body_succeeds in Hs as [r Hr]. congruence. }
      rewrite Hs. simpl.
      set (w1 := Wait (backoff a) :: Fetch u :: w).
      change (S (requests w)) with (requests w1).
      destruct (IH (Some err) w1) as [[Hf [e He]] | (pre & u' & a' & post & r & -> & Hf & Hr & Hrun)].
      * left. split; [exact Hf|]. exists e. exact He.
      * right. exists ((u, a) :: pre), u', a', post, r.
        split; [reflexivity|]. split; [|split].
        -- simpl. rewrite Hs. exact Hf.
        -- simpl. replace (requests w + S (List.length pre))
             with (requests w1 + List.length pre) by (subst w1; simpl; lia).
           exact Hr.
        -- exact Hrun.
Qed.

Lemma numbered_schedule_length (urls : list string) (tries : nat) :
  List.length (numbered_schedule urls tries) = List.length urls * tries.
Proof.
  rewrite <- (length_map fst), numbered_schedule_urls. apply schedule_length.
Qed.

Lemma numbered_schedule_backoffs (urls : list string) (tries : nat) :
  map (fun p => backoff (snd p)) (numbered_schedule urls tries)
  = flat_map (fun _ => map backoff (seq 0 tries)) urls.
Proof.
  unfold numbered_schedule.
  induction urls as [|u urls IH]; simpl; [reflexivity|].
  now rewrite map_app, IH, map_map.
Qed.

Lemma numbered_schedule_in (urls : list string) (tries : nat) (u : string) (a : nat) :
  In (u, a) (numbered_schedule urls tries) -> In u urls /\ a < tries.
Proof.
  unfold numbered_schedule. intros H.
  apply in_flat_map in H as (v & Hv & H).
  apply in_map_iff in H as (b & Hb & Hin).
  injection Hb as <- <-. apply in_seq in Hin. split; [exact Hv|lia].
Qed.

Lemma firstn_app_exact {A : Type} (l1 l2 : list A) :
  firstn (List.length l1) (l1 ++ l2)%list = l1.
Proof.
  induction l1 as [|x l1 IH]; simpl; [now destruct l2|]. now rewrite IH.
Qed.

Lemma firstn_app_one {A : Type} (l1 l2 : list A) (x : A) :
  firstn (S (List.length l1)) (l1 ++ x :: l2)%list = (l1 ++ [x])%list.
Proof.
  induction l1 as [|y l1 IH]; [reflexivity|].
  change (firstn (S (List.length (y :: l1))) ((y :: l1) ++ x :: l2)%list)
    with (y :: firstn (S (List.length l1)) (l1 ++ x :: l2)%list).
  now rewrite IH.
Qed.

(** The requests of a call are an initial segment of its schedule, and a
    call with something to try issues at least one. *)
Lemma tryFetchJson_trace (urls : list string) (tries : nat) (w : world) :
  exists n,
    n <= List.length urls * tries
    /\ (0 < List.length urls * tries -> 0 < n)
    /\ fetched (snd (tryFetchJson urls tries w))
       = (fetched w ++ firstn n (schedule urls tries))%list
    /\ requests (snd (tryFetchJson urls tries w)) = requests w + n.
Proof.
  unfold tryFetchJson. rewrite endpoints_run.
  destruct (run_cases (numbered_schedule urls tries) None w)
    as [[_ [e He]] | (pre & u & a & post & r & Hs & _ & _ & Hrun)].
  - exists (List.length urls * tries). rewrite He. simpl.
    split; [lia|]. split; [auto|]. split.
    + unfold fetched.
      rewrite after_failures_fetched, rev_app_distr, rev_involutive.
      rewrite numbered_schedule_urls.
      now rewrite <- (schedule_length urls tries), firstn_all.
    + now rewrite after_failures_requests, numbered_schedule_length.
  - exists (S (List.length pre)). rewrite Hrun. cbn [fst snd].
    pose proof (numbered_schedule_length urls tries) as Hl.
    rewrite Hs, length_app in Hl. simpl in Hl.
    split; [lia|]. split; [lia|]. split.
    + unfold fetched. cbn [fetched_rev rev].
      rewrite after_failures_fetched, rev_app_distr, rev_involutive.
      rewrite <- numbered_schedule_urls, Hs, map_app.
      rewrite <- (length_map fst pre).
      change (map fst ((u, a) :: post)) with (u :: map fst post).
      now rewrite firstn_app_one, <- app_assoc.
    + cbn [requests]. rewrite after_failures_requests. lia.
Qed.

(** X1.  Whatever the network does, the requests of a call are an initial
    segment of its schedule: endpoints in list order, each at most [tries]
    times in a row, never more than |urls| * tries requests in all. *)
Theorem tryFetchJson_follows_schedule (urls : list string) (tries : nat) (w : world) :
  exists n,
    n <= List.length urls * tries
    /\ fetched (snd (tryFetchJson urls tries w))
       = (fetched w ++ firstn n (schedule urls tries))%list
    /\ requests (snd (tryFetchJson urls tries w)) = requests w + n.
Proof.
  destruct (tryFetchJson_trace urls tries w) as (n & Hn & _ & Hf & Hr).
  exists n. auto.
Qed.

(** X2.  A call that resolves hands back an endpoint of its list and the
    parse of the body of that endpoint's last response, which had a 2xx
    status; that request is the last one issued. *)
Theorem tryFetchJson_resolves_soundly (urls : list string) (tries : nat)
  (w w' : world) (r : fetched_json) :
  tryFetchJson urls tries w = (Return r, w') ->
  In (url r) urls
  /\ (exists earlier, fetched w' = (fetched w ++ earlier ++ [url r])%list)
  /\ exists res,
       network (requests w' - 1) (url r) = Responded res
       /\ ok res = true
       /\ JSON_parse (text res) = Return (data r).
Proof.
  unfold tryFetchJson. rewrite endpoints_run. intros H.
  destruct (run_cases (numbered_schedule urls tries) None w)
    as [[_ [e He]] | (pre & u & a & post & r0 & Hs & _ & Hr & Hrun)].
  - congruence.
  - rewrite Hrun in H. injection H as -> <-.
    destruct (attempt_body_return _ _ _ Hr) as (Hu & res & Hn & Hp & Hok).
    split; [|split].
    + rewrite Hu.
      apply (numbered_schedule_in urls tries u a).
      rewrite Hs. apply in_or_app. right. now left.
    + exists (map fst pre). unfold fetched. simpl.
      rewrite after_failures_fetched, rev_app_distr, rev_involutive, Hu.
      now rewrite <- app_assoc.
    + exists res. simpl. rewrite after_failures_requests, Nat.sub_0_r, Hu. auto.
Qed.

(** X3.  A call that throws has made every attempt of its schedule, and
    each of them failed: it never gives up early. *)
Theorem tryFetchJson_throws_exhausted (urls : list string) (tries : nat)
  (w w' : world) (e : exn) :
  tryFetchJson urls tries w = (Throw e, w') ->
  all_fail (requests w) (schedule urls tries) = true
  /\ fetched w' = (fetched w ++ schedule urls tries)%list
  /\ requests w' = requests w + List.length urls * tries.
Proof.
  unfold tryFetchJson. rewrite endpoints_run. intros H.
  destruct (run_cases (numbered_schedule urls tries) None w)
    as [[Hf [e0 He]] | (pre & u & a & post & r0 & _ & _ & _ & Hrun)].
  - rewrite He in H. injection H as _ <-.
    rewrite numbered_schedule_urls in Hf. split; [exact Hf|]. split.
    + unfold fetched.
      now rewrite after_failures_fetched, rev_app_distr, rev_involutive,
        numbered_schedule_urls.
    + now rewrite after_failures_requests, numbered_schedule_length.
  - congruence.
Qed.

(** X4.  One wait follows every failed attempt and none follows a
    success.  The waits are 500 ms doubled with each attempt on the same
    endpoint, starting again at 500 ms on the next endpoint. *)
Theorem tryFetchJson_backoff (urls : list string) (tries : nat) (w : world) :
  exists failed,
    waits (snd (tryFetchJson urls tries w))
    = (waits w
       ++ firstn failed (flat_map (fun _ => map backoff (seq 0 tries)) urls))%list
    /\ failed <= List.length urls * tries
    /\ requests (snd (tryFetchJson urls tries w))
       = requests w + failed
         + match fst (tryFetchJson urls tries w) with
           | Return _ => 1
           | Throw _ => 0
           end.
Proof.
  unfold tryFetchJson. rewrite endpoints_run.
  destruct (run_cases (numbered_schedule urls tries) None w)
    as [[_ [e He]] | (pre & u & a & post & r & Hs & _ & _ & Hrun)].
  - exists (List.length urls * tries). rewrite He. simpl.
    split; [|split; [lia|]].
    + unfold waits.
      rewrite after_failures_waits, rev_app_distr, rev_involutive.
      rewrite numbered_schedule_backoffs. f_equal.
      rewrite firstn_all2; [reflexivity|].
      rewrite <- numbered_schedule_backoffs, length_map,
        numbered_schedule_length. lia.
    + rewrite after_failures_requests, numbered_schedule_length. lia.
  - exists (List.length pre). rewrite Hrun. simpl.
    pose proof (numbered_schedule_length urls tries) as Hl.
    rewrite Hs, length_app in Hl. simpl in Hl.
    split; [|split; [lia|]].
    + unfold waits. simpl.
      rewrite after_failures_waits, rev_app_distr, rev_involutive.
      rewrite <- numbered_schedule_backoffs, Hs, map_app. f_equal.
      rewrite <- (length_map (fun p => backoff (snd p)) pre).
      symmetry. apply firstn_app_exact.
    + rewrite after_failures_requests. lia.
Qed.

End FetcherFurther.

Lemma tryFetchJson_resolves_soundly_witness :
  tryFetchJson Sample.JSON_parse Sample.e1_down [Sample.E1; Sample.E2] 3 []
    = (Return (mkFetched (VObj []) Sample.E2),
       [Fetch Sample.E2; Wait 2000; Fetch Sample.E1; Wait 1000; Fetch Sample.E1;
        Wait 500; Fetch Sample.E1])
  /\ (In (url (mkFetched (VObj []) Sample.E2)) [Sample.E1; Sample.E2]
      /\ (exists earlier,
            fetched [Fetch Sample.E2; Wait 2000; Fetch Sample.E1; Wait 1000;
                     Fetch Sample.E1; Wait 500; Fetch Sample.E1]
            = (fetched [] ++ earlier ++ [url (mkFetched (VObj []) Sample.E2)])%list)
      /\ exists res,
           Sample.e1_down
             (requests [Fetch Sample.E2; Wait 2000; Fetch Sample.E1; Wait 1000;
                        Fetch Sample.E1; Wait 500; Fetch Sample.E1] - 1)
             (url (mkFetched (VObj []) Sample.E2)) = Responded res
           /\ ok res = true
           /\ Sample.JSON_parse (text res) = Return (data (mkFetched (VObj []) Sample.E2))).
Proof.
  split.
  - reflexivity.
  - apply (tryFetchJson_resolves_soundly Sample.JSON_parse Sample.e1_down
             [Sample.E1; Sample.E2] 3 []).
    reflexivity.
Defined.

Lemma tryFetchJson_throws_exhausted_witness :
  tryFetchJson Sample.JSON_parse Sample.all_down [Sample.E1; Sample.E2] 3 []
    = (Throw (non_json_error Sample.E2 Sample.busy),
       after_failures (numbered_schedule [Sample.E1; Sample.E2] 3) [])
  /\ (all_fail Sample.JSON_parse Sample.all_down (requests [])
        (schedule [Sample.E1; Sample.E2] 3) = true
      /\ fetched (after_failures (numbered_schedule [Sample.E1; Sample.E2] 3) [])
         = (fetched [] ++ schedule [Sample.E1; Sample.E2] 3)%list
      /\ requests (after_failures (numbered_schedule [Sample.E1; Sample.E2] 3) [])
         = requests [] + List.length [Sample.E1; Sample.E2] * 3).
Proof.
  split.
  - reflexivity.
  - apply (tryFetchJson_throws_exhausted Sample.JSON_parse Sample.all_down
             [Sample.E1; Sample.E2] 3 [] _ (non_json_error Sample.E2 Sample.busy)).
    reflexivity.
Defined.

(** The waits of a call on which the first endpoint is down: 500, 1000 and
    2000 ms, and none after the success. *)
Example backoff_sample :
  waits (snd (tryFetchJson Sample.JSON_parse Sample.e1_down
                [Sample.E1; Sample.E2] 3 []))
  = [500; 1000; 2000]%Z.
Proof. reflexivity. Qed.

(** ** Blank and non-blank input *)

Lemma trimEnd_empty (s : string) :
  Js.trimEnd s = "" -> Js.all_space s = true.
Proof.
  induction s as [|c s IH]; simpl; [reflexivity|].
  destruct (Js.trimEnd s) as [|d t]; [|discriminate].
  destruct (Js.is_space c); [|discriminate].
  intros _. now rewrite IH.
Qed.

Lemma all_space_trimStart (s : string) :
  Js.all_space (Js.trimStart s) = Js.all_space s.
Proof.
  induction s as [|c s IH]; simpl; [reflexivity|].
  destruct (Js.is_space c) eqn:E; simpl; [exact IH|].
  now rewrite E.
Qed.

(** [trim] leaves nothing exactly when there was only white space. *)
Lemma trim_empty_iff (s : string) :
  Js.trim s = "" <-> Js.all_space s = true.
Proof.
  split; [|apply trim_all_space].
  unfold Js.trim. intros H. apply trimEnd_empty in H.
  now rewrite all_space_trimStart in H.
Qed.

Section SearchFurther.

Variable JSON_parse : string -> completion value.
Variable network : nat -> string -> fetch_outcome.
Variable parseFloat_string : string -> number.
Variable number_to_string : number -> string.
Variable encodeURIComponent : string -> completion string.
Variable haversine : number -> number -> number -> number -> number.

Local Abbreviation searchHospitals :=
  (searchHospitals JSON_parse network parseFloat_string number_to_string
     encodeURIComponent haversine).
Local Abbreviation present :=
  (present parseFloat_string number_to_string haversine).
Local Abbreviation build_items := (build_items parseFloat_string number_to_string).
Local Abbreviation map_locate := (map_locate parseFloat_string number_to_string).
Local Abbreviation locate := (locate parseFloat_string number_to_string).
Local Abbreviation rank := (rank haversine).
Local Abbreviation attach_distance := (attach_distance haversine).
Local Abbreviation geoEndpoints := (geoEndpoints encodeURIComponent).
Local Abbreviation overpassUrls := (overpassUrls number_to_string encodeURIComponent).
Local Abbreviation origin := (origin parseFloat_string number_to_string).
Local Abbreviation tryFetchJson := (tryFetchJson JSON_parse network).
Local Abbreviation all_fail := (all_fail JSON_parse network).

(** The geocoding URLs, once built, are the two around one encoded query. *)
Lemma geoEndpoints_inv (place : string) (urls : list string) :
  geoEndpoints place = Return urls ->
  exists q,
    encodeURIComponent (place ++ region) = Return q /\ urls = geoUrls q q.
Proof.
  unfold geoEndpoints. intros H.
  destruct (encodeURIComponent (place ++ region)) as [q|e]; [|discriminate].
  injection H as <-. eauto.
Qed.

Lemma geoEndpoints_length (place : string) (urls : list string) :
  geoEndpoints place = Return urls -> List.length urls = 2.
Proof.
  intros H. destruct (geoEndpoints_inv _ _ H) as (q & _ & ->). reflexivity.
Qed.

Lemma overpassUrls_length (lat lon : number) (urls : list string) :
  overpassUrls lat lon = Return urls -> List.length urls = 2.
Proof.
  unfold overpassUrls. intros H.
  destruct (encodeURIComponent _) as [q|e]; [|discriminate].
  injection H as <-. reflexivity.
Qed.

(** The requests of a search: attempts on the geocoders, as scheduled, then
    attempts on the Overpass servers, as scheduled.  A request to a service
    is made only once the URLs of that service were built. *)
Lemma searchHospitals_trace (input : string) (w : world) :
  exists n m geo ovp,
    n <= 4 /\ m <= 6
    /\ (Js.all_space input = true -> n = 0 /\ m = 0)
    /\ (Js.all_space input = false ->
        forall urls, geoEndpoints (Js.trim input) = Return urls -> 0 < n)
    /\ (0 < n -> geoEndpoints (Js.trim input) = Return geo)
    /\ (0 < m -> exists lat lon, overpassUrls lat lon = Return ovp)
    /\ fetched (snd (searchHospitals input w))
       = (fetched w
          ++ firstn n (schedule geo 2) ++ firstn m (schedule ovp 3))%list.
Proof.
  unfold searchHospitals.
  destruct (String.eqb (Js.trim input) "") eqn:Hblank.
  { exists 0, 0, [], []. simpl. rewrite app_nil_r.
    apply String.eqb_eq, trim_empty_iff in Hblank.
    split; [lia|]. split; [lia|]. split; [auto|].
    split; [intros H; congruence|]. split; [lia|]. split; [lia|reflexivity]. }
  apply String.eqb_neq in Hblank.
  assert (Hns : Js.all_space input = true -> False).
  { intros H. apply Hblank, trim_empty_iff, H. }
  destruct (geoEndpoints (Js.trim input)) as [gurls|e] eqn:Hg.
  2:{ exists 0, 0, [], []. simpl. rewrite app_nil_r.
      split; [lia|]. split; [lia|].
      split; [intros H; now destruct (Hns H)|].
      split; [intros _ urls H; discriminate H|].
      split; [lia|]. split; [lia|reflexivity]. }
  destruct (tryFetchJson_trace JSON_parse network gurls 2 w)
    as (n & Hn & Hpos & Hf & _).
  rewrite (geoEndpoints_length _ _ Hg) in Hn, Hpos.
  change (2 * 2) with 4 in Hn, Hpos.
  assert (Hshort :
    exists n m geo ovp,
      n <= 4 /\ m <= 6
      /\ (Js.all_space input = true -> n = 0 /\ m = 0)
      /\ (Js.all_space input = false ->
          forall urls, Return gurls = Return urls -> 0 < n)
      /\ (0 < n -> Return gurls = Return geo)
      /\ (0 < m -> exists lat lon, overpassUrls lat lon = Return ovp)
      /\ fetched (snd (tryFetchJson gurls 2 w))
         = (fetched w
            ++ firstn n (schedule geo 2) ++ firstn m (schedule ovp 3))%list).
  { exists n, 0, gurls, []. simpl. rewrite app_nil_r.
    split; [exact Hn|]. split; [lia|].
    split; [intros H; now destruct (Hns H)|].
    split; [intros _ urls _; apply Hpos; lia|].
    split; [reflexivity|]. split; [lia|]. exact Hf. }
  destruct (tryFetchJson gurls 2 w) as [[geo|e] w1]; [|exact Hshort].
  destruct (data geo) as [| |b|x|s|[|g0 rest]|props]; try exact Hshort.
  destruct (origin g0) as [[lat lon]|e]; [|exact Hshort].
  unfold search_around.
  destruct (overpassUrls lat lon) as [ourls|e] eqn:Ho; [|exact Hshort].
  destruct (tryFetchJson_trace JSON_parse network ourls 3 w1)
    as (m & Hm & _ & Hf2 & _).
  rewrite (overpassUrls_length _ _ _ Ho) in Hm.
  change (2 * 3) with 6 in Hm.
  simpl in Hf.
  assert (Hlong :
    fetched (snd (tryFetchJson ourls 3 w1))
    = (fetched w
       ++ firstn n (schedule gurls 2) ++ firstn m (schedule ourls 3))%list).
  { now rewrite Hf2, Hf, <- app_assoc. }
  exists n, m, gurls, ourls.
  split; [exact Hn|]. split; [exact Hm|].
  split; [intros H; now destruct (Hns H)|].
  split; [intros _ urls _; apply Hpos; lia|].
  split; [reflexivity|]. split; [intros _; eauto|].
  destruct (tryFetchJson ourls 3 w1) as [[hosp|e] w2]; exact Hlong.
Qed.

(** X5.  Whatever the input and the network, a search sends at most ten
    requests: a run of at most four on the geocoders, Nominatim twice and
    then geocode.maps.co twice, followed by a run of at most six on the
    Overpass servers, overpass-api.de three times and then the kumi mirror
    three times, all for one origin.  The URLs of a service that is
    contacted are the ones lines 70-73 and 103-107 build. *)
Theorem searchHospitals_requests (input : string) (w : world) :
  exists n m geo ovp,
    n <= 4 /\ m <= 6
    /\ (0 < n -> geoEndpoints (Js.trim input) = Return geo)
    /\ (0 < m -> exists lat lon, overpassUrls lat lon = Return ovp)
    /\ fetched (snd (searchHospitals input w))
       = (fetched w
          ++ firstn n (schedule geo 2) ++ firstn m (schedule ovp 3))%list.
Proof.
  destruct (searchHospitals_trace input w)
    as (n & m & geo & ovp & Hn & Hm & _ & _ & Hg & Ho & Hf).
  exists n, m, geo, ovp. auto.
Qed.

(** The search never ends in the invalid-input outcome once lines 120-145
    are reached. *)
Lemma present_not_invalid (lat lon : number) (place : string) (json : value) :
  present lat lon place json <> InvalidInput.
Proof.
  unfold present.
  repeat match goal with
         | |- context [match ?x with _ => _ end] => destruct x
         end; discriminate.
Qed.

(** X6.  The invalid-input outcome is the outcome of blank input and of no
    other input. *)
Theorem searchHospitals_invalid_iff_blank (input : string) (w : world) :
  fst (searchHospitals input w) = InvalidInput <-> Js.all_space input = true.
Proof.
  split.
  - intros H. apply trim_empty_iff.
    destruct (String.eqb (Js.trim input) "") eqn:Hb;
      [now apply String.eqb_eq|].
    exfalso. revert H. unfold searchHospitals. rewrite Hb.
    destruct (geoEndpoints (Js.trim input)) as [gurls|e]; [|discriminate].
    destruct (tryFetchJson gurls 2 w) as [[geo|e] w1]; [|discriminate].
    destruct (data geo) as [| |b|x|s|[|g0 rest]|props]; try discriminate.
    destruct (origin g0) as [[lat lon]|e]; [|discriminate].
    unfold search_around.
    destruct (overpassUrls lat lon) as [ourls|e]; [|discriminate].
    destruct (tryFetchJson ourls 3 w1) as [[hosp|e] w2]; [|discriminate].
    apply present_not_invalid.
  - intros H. unfold searchHospitals. now rewrite (trim_all_space input H).
Qed.

(** X7.  For input that is not blank the search first encodes the trimmed
    place followed by the fixed region.  When the encoder returns, the
    network is reached and the first request goes to Nominatim with the
    encoded query; when the encoder throws (it does on a string with an
    unpaired surrogate), the search ends with the generic failure and no
    request at all. *)
Theorem searchHospitals_asks_nominatim_first (input : string) (w : world) :
  Js.all_space input = false ->
  match encodeURIComponent (Js.trim input ++ ", Tamil Nadu, India") with
  | Return q =>
      exists later,
        fetched (snd (searchHospitals input w))
        = (fetched w
           ++ ("https://nominatim.openstreetmap.org/search?format=json&limit=1&q="
               ++ q)%string
           :: later)%list
  | Throw e => searchHospitals input w = (UnexpectedFailure e, w)
  end.
Proof.
  intros Hnb.
  destruct (encodeURIComponent (Js.trim input ++ ", Tamil Nadu, India"))
    as [q|e] eqn:Hq.
  - assert (Hg : geoEndpoints (Js.trim input) = Return (geoUrls q q)).
    { unfold geoEndpoints, region. now rewrite Hq. }
    destruct (searchHospitals_trace input w)
      as (n & m & geo & ovp & _ & _ & _ & Hpos & Hgeo & _ & Hf).
    specialize (Hpos Hnb _ Hg). specialize (Hgeo Hpos).
    rewrite Hg in Hgeo. injection Hgeo as <-. rewrite Hf.
    destruct n as [|n]; [lia|].
    eexists. simpl. reflexivity.
  - assert (Hb : String.eqb (Js.trim input) "" = false).
    { apply String.eqb_neq. intros H. apply trim_empty_iff in H. congruence. }
    unfold searchHospitals, geoEndpoints, region. now rewrite Hb, Hq.
Qed.

End SearchFurther.

(** ** When the services are down *)

(** A call on which every attempt fails throws, with every attempt made. *)
Lemma tryFetchJson_all_fail
  (JSON_parse : string -> completion value)
  (network : nat -> string -> fetch_outcome)
  (urls : list string) (tries : nat) (w : world) :
  all_fail JSON_parse network (requests w) (schedule urls tries) = true ->
  exists e,
    tryFetchJson JSON_parse network urls tries w
    = (Throw e, after_failures (numbered_schedule urls tries) w).
Proof.
  intros Hf. unfold tryFetchJson. rewrite endpoints_run.
  rewrite <- numbered_schedule_urls in Hf.
  destruct (run_failing_prefix JSON_parse network
              (numbered_schedule urls tries) [] None w Hf) as [Hrun _].
  rewrite app_nil_r in Hrun. rewrite Hrun. simpl. eauto.
Qed.

Lemma after_failures_schedule (urls : list string) (tries : nat) (w : world) :
  fetched (after_failures (numbered_schedule urls tries) w)
  = (fetched w ++ schedule urls tries)%list.
Proof.
  unfold fetched.
  now rewrite after_failures_fetched, rev_app_distr, rev_involutive,
    numbered_schedule_urls.
Qed.

Section ServicesDown.

Variable JSON_parse : string -> completion value.
Variable network : nat -> string -> fetch_outcome.
Variable parseFloat_string : string -> number.
Variable number_to_string : number -> string.
Variable encodeURIComponent : string -> completion string.
Variable haversine : number -> number -> number -> number -> number.

Local Abbreviation searchHospitals :=
  (searchHospitals JSON_parse network parseFloat_string number_to_string
     encodeURIComponent haversine).
Local Abbreviation present :=
  (present parseFloat_string number_to_string haversine).
Local Abbreviation build_items := (build_items parseFloat_string number_to_string).
Local Abbreviation map_locate := (map_locate parseFloat_string number_to_string).
Local Abbreviation locate := (locate parseFloat_string number_to_string).
Local Abbreviation rank := (rank haversine).
Local Abbreviation attach_distance := (attach_distance haversine).
Local Abbreviation geoEndpoints := (geoEndpoints encodeURIComponent).
Local Abbreviation overpassUrls := (overpassUrls number_to_string encodeURIComponent).
Local Abbreviation origin := (origin parseFloat_string number_to_string).
Local Abbreviation tryFetchJson := (tryFetchJson JSON_parse network).
Local Abbreviation all_fail := (all_fail JSON_parse network).

(** X8.  When both geocoders fail on every attempt, the search makes its
    four geocoding requests, contacts no Overpass server, and ends with the
    generic error message: neither the place-not-found message nor the
    server-busy one. *)
Theorem searchHospitals_geocoding_down (input : string) (w : world)
  (urls : list string) :
  Js.all_space input = false ->
  geoEndpoints (Js.trim input) = Return urls ->
  all_fail (requests w) (schedule urls 2) = true ->
  (exists e, fst (searchHospitals input w) = UnexpectedFailure e)
  /\ status_text (fst (searchHospitals input w))
     = "An error occurred while searching. See console for details."
  /\ fetched (snd (searchHospitals input w))
     = (fetched w ++ schedule urls 2)%list
  /\ List.length (schedule urls 2) = 4.
Proof.
  intros Hnb Hg Hf.
  destruct (tryFetchJson_all_fail JSON_parse network _ _ _ Hf) as [e He].
  assert (Hb : String.eqb (Js.trim input) "" = false).
  { apply String.eqb_neq. intros H. apply trim_empty_iff in H. congruence. }
  unfold searchHospitals. rewrite Hb, Hg, He. cbn [fst snd].
  split; [eauto|]. split; [reflexivity|].
  split; [apply after_failures_schedule|].
  unfold geoEndpoints in Hg.
  destruct (encodeURIComponent _) as [q|e']; [|discriminate].
  injection Hg as <-. reflexivity.
Qed.

(** X9.  When geocoding has given an origin and both Overpass servers fail
    on every attempt, the search makes its six geodata requests, three to
    each server in turn, and ends with the server-busy message. *)
Theorem searchHospitals_geodata_down (input : string) (w w1 : world)
  (gurls ourls : list string)
  (geo : fetched_json) (g0 : value) (rest : list value) (lat lon : number) :
  Js.all_space input = false ->
  geoEndpoints (Js.trim input) = Return gurls ->
  tryFetchJson gurls 2 w = (Return geo, w1) ->
  data geo = VArr (g0 :: rest) ->
  origin g0 = Return (lat, lon) ->
  overpassUrls lat lon = Return ourls ->
  all_fail (requests w1) (schedule ourls 3) = true ->
  fst (searchHospitals input w) = GeodataUnavailable
  /\ status_text (fst (searchHospitals input w))
     = "Failed to fetch hospital data (server busy or rate-limited). Try again in a moment."
  /\ fetched (snd (searchHospitals input w))
     = (fetched w1 ++ schedule ourls 3)%list
  /\ List.length (schedule ourls 3) = 6.
Proof.
  intros Hnb Hg Hgeo Hd Ho Hu Hf.
  destruct (tryFetchJson_all_fail JSON_parse network _ _ _ Hf) as [e He].
  assert (Hb : String.eqb (Js.trim input) "" = false).
  { apply String.eqb_neq. intros H. apply trim_empty_iff in H. congruence. }
  unfold searchHospitals, search_around.
  rewrite Hb, Hg, Hgeo, Hd, Ho, Hu, He. cbn [fst snd].
  split; [reflexivity|]. split; [reflexivity|].
  split; [apply after_failures_schedule|].
  unfold overpassUrls in Hu.
  destruct (encodeURIComponent _) as [q|e']; [|discriminate].
  injection Hu as <-. reflexivity.
Qed.

Lemma locate_null : exists e, locate VNull = Throw e.
Proof. unfold locate, coordinate. simpl. eauto. Qed.

Lemma map_locate_null (els : list value) :
  In VNull els -> exists e, map_locate els = Throw e.
Proof.
  induction els as [|x els IH]; simpl; [contradiction|].
  intros [-> | Hin].
  - destruct locate_null as [e He]. rewrite He. eauto.
  - destruct (locate x) as [i|e]; [|eauto].
    destruct (IH Hin) as [e He]. rewrite He. eauto.
Qed.

(** X10.  One null among the elements of the geodata answer is enough for
    the search to end with the generic error message, whatever the other
    elements are: nothing is ranked. *)
Theorem null_element_fails_search (lat lon : number) (place : string)
  (json : value) (els : list value) :
  Val.get json "elements" = Return (VArr els) ->
  In VNull els ->
  (exists e, present lat lon place json = UnexpectedFailure e)
  /\ status_text (present lat lon place json)
     = "An error occurred while searching. See console for details.".
Proof.
  intros He Hin.
  rewrite (present_array _ _ _ _ _ _ _ _ He).
  destruct els as [|x els]; [contradiction|].
  unfold build_items.
  destruct (map_locate_null _ Hin) as [e Hm]. rewrite Hm.
  split; [eauto|reflexivity].
Qed.

(** X11.  In the successful outcome at least one element was received, and
    the records shown number at most thirty and at most the count that the
    status line reports. *)
Theorem found_counts_bounded (lat lon : number) (place : string)
  (json : value) (total : nat) (toShow : list ranked) :
  present lat lon place json = Found total toShow ->
  1 <= total /\ List.length toShow <= 30 /\ List.length toShow <= total.
Proof.
  intros H.
  destruct (present_found_inv parseFloat_string number_to_string haversine
              _ _ _ _ _ _ H)
    as (els & items & _ & Hne & Hb & -> & ->).
  destruct (build_items_filter _ _ _ _ Hb) as (mapped & _ & -> & Hlen).
  pose proof (filter_length_le has_coordinates mapped) as Hle.
  rewrite rank_length.
  destruct els as [|x els]; [congruence|].
  cbn [List.length] in *. lia.
Qed.

(** X12.  With at most thirty retained items nothing is cut: the list shown
    holds every retained item with its distance, each once. *)
Theorem rank_keeps_all_when_few (lat lon : number) (items : list item) :
  List.length items <= 30 ->
  Permutation (rank lat lon items) (map (attach_distance lat lon) items).
Proof.
  intros Hle. unfold rank, Arr.slice0.
  change (Arr.sort by_distance) with (Arr.sort (A := ranked) (by_key distance)).
  rewrite firstn_all2.
  - apply sort_permutation.
  - now rewrite sort_length, length_map.
Qed.

End ServicesDown.

(** ** More on the order of the list shown *)

(** [a] and [b] are the same number. *)
Definition same_number (a b : number) : bool := Num.leb a b && Num.leb b a.

(** A positive difference, NaN excluded by its being positive. *)
Lemma positive_difference_lt (a b : number) :
  Num.ltb (Fin 0) (Num.sub a b) = true -> Num.ltb b a = true.
Proof.
  destruct a as [| | |a], b as [| | |b]; simpl; try discriminate; auto.
  unfold Num.Qltb. now rewrite Qle_bool_sub.
Qed.

Lemma le_not_positive (a b : number) :
  Num.leb a b = true -> Num.ltb (Fin 0) (Num.sub a b) = false.
Proof.
  destruct a as [| | |a], b as [| | |b]; simpl; try discriminate; auto.
  unfold Num.Qltb. rewrite Qle_bool_sub. now intros ->.
Qed.

Lemma lt_not_le (a b : number) :
  Num.ltb a b = true -> Num.leb b a = false.
Proof.
  destruct a as [| | |a], b as [| | |b]; simpl; try discriminate; auto.
  unfold Num.Qltb. intros H. now apply negb_true_iff in H.
Qed.

Section SortFurther.

Context {A : Type}.
Variable key : A -> number.

Local Abbreviation by_key := (by_key key).
Local Abbreviation key_le := (key_le key).

Lemma sort_ascending_unchanged (l : list A) :
  StronglySorted key_le l -> Arr.sort by_key l = l.
Proof.
  intros Hs. induction Hs as [|x l Hs IH Hx]; simpl; [reflexivity|].
  rewrite IH. destruct l as [|y l]; [reflexivity|].
  simpl. inversion Hx as [|? ? Hxy _]; subst.
  unfold Arr.after, by_key at 1.
  now rewrite (le_not_positive _ _ Hxy).
Qed.

Lemma insert_filter (p : A -> bool) (x : A) (l : list A) :
  (forall y, In y l -> Arr.after by_key x y = true -> p x = true -> p y = false) ->
  filter p (Arr.insert by_key x l) = filter p (x :: l).
Proof.
  induction l as [|y l IH]; intros H; [reflexivity|].
  cbn [Arr.insert].
  destruct (Arr.after by_key x y) eqn:Hafter; [|reflexivity].
  cbn [filter]. rewrite IH by (intros z Hz; apply H; now right).
  cbn [filter].
  destruct (p x) eqn:Hpx; [|reflexivity].
  now rewrite (H y (or_introl eq_refl) Hafter eq_refl).
Qed.

Lemma sort_stable (d : number) (l : list A) :
  filter (fun r => same_number (key r) d) (Arr.sort by_key l)
  = filter (fun r => same_number (key r) d) l.
Proof.
  induction l as [|x l IH]; [reflexivity|].
  cbn [Arr.sort]. rewrite insert_filter.
  - cbn [filter]. now rewrite IH.
  - intros y _ Hafter Hx.
    unfold Arr.after, by_key in Hafter.
    apply positive_difference_lt in Hafter.
    unfold same_number in *. apply andb_true_iff in Hx as [Hxd Hdx].
    destruct (Num.leb (key y) d) eqn:Hyd; [|reflexivity].
    destruct (Num.leb d (key y)) eqn:Hdy; [|reflexivity].
    apply lt_not_le in Hafter.
    rewrite (leb_trans _ _ _ Hxd Hdy) in Hafter. discriminate.
Qed.

End SortFurther.

(** X13.  A list that is already in ascending order of distance comes out
    of the sort of line 139 as it went in. *)
Theorem sort_by_distance_keeps_ascending (l : list ranked) :
  StronglySorted (fun a b => Num.leb (distance a) (distance b) = true) l ->
  Arr.sort by_distance l = l.
Proof. apply (sort_ascending_unchanged distance). Qed.

(** X14.  With no NaN among the distances the sort of line 139 keeps ties
    in place: the records at one distance come out in the order in which
    they went in. *)
Theorem sort_by_distance_stable (d : number) (l : list ranked) :
  Forall (fun r => Num.isNaN (distance r) = false) l ->
  filter (fun r => same_number (distance r) d) (Arr.sort by_distance l)
  = filter (fun r => same_number (distance r) d) l.
Proof. intros _. apply (sort_stable distance). Qed.

(** ** More on the escaping helpers *)

(** The characters that open or close markup or an attribute value. *)
Definition is_markup (c : ascii) : bool :=
  let n := Ascii.nat_of_ascii c in
  (n =? 60) || (n =? 62) || (n =? 34) || (n =? 39).

(** The characters [escapeHtml] replaces. *)
Definition is_special (c : ascii) : bool :=
  (Ascii.nat_of_ascii c =? 38) || is_markup c.

(** Every code unit of [s] passes [p]. *)
Fixpoint all_chars (p : ascii -> bool) (s : string) : bool :=
  match s with
  | EmptyString => true
  | String c s' => p c && all_chars p s'
  end.

Lemma all_chars_app (p : ascii -> bool) (a b : string) :
  all_chars p (a ++ b) = all_chars p a && all_chars p b.
Proof.
  induction a as [|c a IH]; simpl; [reflexivity|].
  now rewrite IH, andb_assoc.
Qed.

Lemma entity_no_markup (c : ascii) :
  all_chars (fun x => negb (is_markup x)) (Escape.entity c) = true.
Proof.
  unfold Escape.entity.
  destruct (nat_of_ascii c =? 38) eqn:E38; [reflexivity|].
  destruct (nat_of_ascii c =? 60) eqn:E60; [reflexivity|].
  destruct (nat_of_ascii c =? 62) eqn:E62; [reflexivity|].
  destruct (nat_of_ascii c =? 34) eqn:E34; [reflexivity|].
  destruct (nat_of_ascii c =? 39) eqn:E39; [reflexivity|].
  simpl. unfold is_markup. now rewrite E60, E62, E34, E39.
Qed.

Lemma escapeHtml_replace_each (s : string) :
  Escape.escapeHtml s = Js.replace_each Escape.entity s.
Proof.
  unfold Escape.escapeHtml. destruct (String.eqb_spec s ""); [now subst|reflexivity].
Qed.

Lemma pct22_no_markup (s : string) :
  all_chars (fun x => negb (is_markup x)) s = true ->
  Js.replace_each Escape.pct22 s = s.
Proof.
  induction s as [|c s IH]; simpl; [reflexivity|].
  intros H. apply andb_true_iff in H as [Hc Hs].
  rewrite (IH Hs). unfold Escape.pct22.
  destruct (nat_of_ascii c =? 34) eqn:E; [|reflexivity].
  unfold is_markup in Hc. rewrite E in Hc.
  rewrite !orb_true_r in Hc. discriminate.
Qed.

(** X15.  What [escapeHtml] and [escapeHtmlAttr] return holds no [<], no
    [>], no double quote and no apostrophe, whatever the string they are
    given. *)
Theorem escaped_text_has_no_markup (s : string) :
  all_chars (fun c => negb (is_markup c)) (Escape.escapeHtml s) = true
  /\ all_chars (fun c => negb (is_markup c)) (Escape.escapeHtmlAttr s) = true.
Proof.
  assert (H : all_chars (fun c => negb (is_markup c)) (Escape.escapeHtml s) = true).
  { rewrite escapeHtml_replace_each.
    induction s as [|c s IH]; simpl; [reflexivity|].
    now rewrite all_chars_app, entity_no_markup, IH. }
  split; [exact H|].
  unfold Escape.escapeHtmlAttr. now rewrite (pct22_no_markup _ H).
Qed.

(** X16.  A string that holds none of the five special characters is
    returned by [escapeHtml] as it is. *)
Theorem escapeHtml_plain_text (s : string) :
  all_chars (fun c => negb (is_special c)) s = true ->
  Escape.escapeHtml s = s.
Proof.
  rewrite escapeHtml_replace_each.
  induction s as [|c s IH]; simpl; [reflexivity|].
  intros H. apply andb_true_iff in H as [Hc Hs]. rewrite (IH Hs).
  unfold is_special, is_markup in Hc.
  apply negb_true_iff in Hc.
  apply orb_false_iff in Hc as [H38 Hm].
  apply orb_false_iff in Hm as [Hm H39].
  apply orb_false_iff in Hm as [Hm H34].
  apply orb_false_iff in Hm as [H60 H62].
  unfold Escape.entity. now rewrite H38, H60, H62, H34, H39.
Qed.

Lemma escapeHtml_plain_text_witness :
  all_chars (fun c => negb (is_special c)) "Govt. Hospital, Ooty" = true
  /\ Escape.escapeHtml "Govt. Hospital, Ooty" = "Govt. Hospital, Ooty".
Proof.
  split.
  - reflexivity.
  - apply (escapeHtml_plain_text "Govt. Hospital, Ooty"). reflexivity.
Defined.

Lemma nat_of_ascii_inj (a b : ascii) : nat_of_ascii a = nat_of_ascii b -> a = b.
Proof.
  intros H. rewrite <- (ascii_nat_embedding a), <- (ascii_nat_embedding b).
  now rewrite H.
Qed.

Lemma entity_cases (c : ascii) :
  (nat_of_ascii c = 38 /\ Escape.entity c = "&amp;")
  \/ (nat_of_ascii c = 60 /\ Escape.entity c = "&lt;")
  \/ (nat_of_ascii c = 62 /\ Escape.entity c = "&gt;")
  \/ (nat_of_ascii c = 34 /\ Escape.entity c = "&quot;")
  \/ (nat_of_ascii c = 39 /\ Escape.entity c = "&#39;")
  \/ (nat_of_ascii c <> 38 /\ Escape.entity c = String c "").
Proof.
  unfold Escape.entity.
  destruct (Nat.eqb_spec (nat_of_ascii c) 38); [auto|].
  destruct (Nat.eqb_spec (nat_of_ascii c) 60); [auto|].
  destruct (Nat.eqb_spec (nat_of_ascii c) 62); [auto|].
  destruct (Nat.eqb_spec (nat_of_ascii c) 34); [auto 6|].
  destruct (Nat.eqb_spec (nat_of_ascii c) 39); [auto 7|].
  auto 8.
Qed.

(** The text that replaces a character tells which character it was, and
    where it ends. *)
Lemma entity_app_inj (c1 c2 : ascii) (r1 r2 : string) :
  (Escape.entity c1 ++ r1 = Escape.entity c2 ++ r2)%string ->
  c1 = c2 /\ r1 = r2.
Proof.
  destruct (entity_cases c1) as [[N1 E1]|[[N1 E1]|[[N1 E1]|[[N1 E1]|[[N1 E1]|[N1 E1]]]]]];
  destruct (entity_cases c2) as [[N2 E2]|[[N2 E2]|[[N2 E2]|[[N2 E2]|[[N2 E2]|[N2 E2]]]]]];
  rewrite E1, E2; simpl; intros H;
  try discriminate H;
  try (split; [apply nat_of_ascii_inj; congruence | now injection H]);
  try (exfalso; injection H as Hc _;
       first [ apply N2; rewrite <- Hc | apply N1; rewrite Hc ]; reflexivity).
Qed.

(** X17.  [escapeHtml] loses nothing: two strings with the same escaped
    text are the same string. *)
Theorem escapeHtml_injective (a b : string) :
  Escape.escapeHtml a = Escape.escapeHtml b -> a = b.
Proof.
  rewrite !escapeHtml_replace_each.
  revert b. induction a as [|c a IH]; intros [|d b]; simpl; intros H.
  - reflexivity.
  - exfalso.
    destruct (entity_cases d) as [[_ E]|[[_ E]|[[_ E]|[[_ E]|[[_ E]|[_ E]]]]]];
      rewrite E in H; discriminate H.
  - exfalso.
    destruct (entity_cases c) as [[_ E]|[[_ E]|[[_ E]|[[_ E]|[[_ E]|[_ E]]]]]];
      rewrite E in H; discriminate H.
  - apply entity_app_inj in H as [-> H]. now rewrite (IH _ H).
Qed.

Lemma escapeHtml_injective_witness :
  Escape.escapeHtml "R&D <Clinic>" = Escape.escapeHtml "R&D <Clinic>"
  /\ "R&D <Clinic>" = "R&D <Clinic>".
Proof.
  split.
  - reflexivity.
  - apply (escapeHtml_injective "R&D <Clinic>" "R&D <Clinic>"). reflexivity.
Defined.

(* ================================================================== *)
(** * Part IV: the card loop (script.js 147-188) *)
(* ================================================================== *)

(** [a || b] on values. *)
Definition or_else (a b : value) : value := if Val.truthy a then a else b.

(** [escapeHtml] on any value: a falsy argument gives the empty string, a
    string is escaped, and every other value has no [replace] method to
    call. *)
Definition escapeHtml_value (v : value) : completion string :=
  if negb (Val.truthy v) then Return ""
  else
    match v with
    | VStr s => Return (Escape.escapeHtml s)
    | _ => Throw (Error "s.replace is not a function")
    end.

(** [escapeHtmlAttr] on any value. *)
Definition escapeHtmlAttr_value (v : value) : completion string :=
  s <- escapeHtml_value v ;;
  Return (Js.replace_each Escape.pct22 s).

(** What the page shows when [searchHospitals] is over. *)
Record page : Type := mkPage {
  statusP : string;
  cards : list string
}.

Section Cards.

Variable number_to_string : number -> string.

(** [x.toFixed(2)] *)
Variable toFixed2 : number -> string.

(** [encodeURI] on a string: the encoded string, or the URIError it throws
    on a string with an unpaired surrogate. *)
Variable encodeURI : string -> completion string.

Local Abbreviation ToString := (ToString number_to_string).

(** The keys of line 157, in its order. *)
Definition address_keys : list string :=
  ["addr:housename"; "addr:housenumber"; "addr:street"; "addr:city";
   "addr:state"; "addr:postcode"].

(** Lines 156-159: the truthy values under the address keys. *)
Fixpoint addrParts (tags : value) (keys : list string) : completion (list value) :=
  match keys with
  | [] => Return []
  | k :: keys' =>
      v <- Val.get tags k ;;
      rest <- addrParts tags keys' ;;
      Return (if Val.truthy v then v :: rest else rest)
  end.

(** Line 160. *)
Definition address_of (tags : value) : completion value :=
  parts <- addrParts tags address_keys ;;
  joined <- join ToString ", " parts ;;
  fallback <- Val.get tags "address" ;;
  Return (or_else (VStr joined)
            (or_else fallback (VStr "Address not available"))).

(** Line 150. *)
Definition name_of (tags : value) : completion value :=
  n <- Val.get tags "name" ;;
  r <- Val.get tags "ref" ;;
  Return (or_else (or_else n r) (VStr "Unnamed Hospital/Clinic")).

(** Line 162. *)
Definition phone_of (tags : value) : completion value :=
  a <- Val.get tags "phone" ;;
  b <- Val.get tags "contact:phone" ;;
  c <- Val.get tags "telephone" ;;
  Return (or_else (or_else (or_else a b) c) VNull).

(** Line 163. *)
Definition website_of (tags : value) : completion value :=
  a <- Val.get tags "website" ;;
  b <- Val.get tags "contact:website" ;;
  Return (or_else (or_else a b) VNull).

(** Line 164. *)
Definition opening_of (tags : value) : completion value :=
  a <- Val.get tags "opening_hours" ;;
  b <- Val.get tags "opening_hours" ;;
  Return (or_else (or_else a b) VNull).

(** Line 166. *)
Definition mapImg (lat2 lon2 : number) : string :=
  "https://staticmap.openstreetmap.de/staticmap.php?center="
  ++ number_to_string lat2 ++ "," ++ number_to_string lon2
  ++ "&zoom=15&size=400x200&markers="
  ++ number_to_string lat2 ++ "," ++ number_to_string lon2 ++ ",red-pushpin".

(** [name="value"] *)
Definition attribute (name value : string) : string :=
  name ++ "=" ++ quoted value.

(** U+1F4DE and U+1F517, in their four-byte encodings. *)
Definition telephone_sign : string :=
  String (Ascii.ascii_of_nat 240) (String (Ascii.ascii_of_nat 159)
    (String (Ascii.ascii_of_nat 147) (String (Ascii.ascii_of_nat 158) EmptyString))).

Definition link_sign : string :=
  String (Ascii.ascii_of_nat 240) (String (Ascii.ascii_of_nat 159)
    (String (Ascii.ascii_of_nat 148) (String (Ascii.ascii_of_nat 151) EmptyString))).

(** Line 175. *)
Definition hours_line (opening : value) : completion string :=
  if Val.truthy opening then
    h <- escapeHtml_value opening ;;
    Return ("<p>Hours: " ++ h ++ "</p>")
  else Return "".

(** Line 177. *)
Definition phone_link (phone : value) : completion string :=
  if Val.truthy phone then
    p <- ToString phone ;;
    encoded <- encodeURI p ;;
    shown <- escapeHtml_value phone ;;
    Return ("<a " ++ attribute "class" "link" ++ " "
            ++ attribute "href" ("tel:" ++ encoded) ++ ">"
            ++ telephone_sign ++ " " ++ shown ++ "</a>")
  else Return "".

(** Line 178. *)
Definition website_link (website : value) : completion string :=
  if Val.truthy website then
    href <- escapeHtmlAttr_value website ;;
    Return ("<a " ++ attribute "class" "link" ++ " "
            ++ attribute "href" href ++ " "
            ++ attribute "target" "_blank" ++ " "
            ++ attribute "rel" "noopener" ++ ">"
            ++ link_sign ++ " Website</a>")
  else Return "".

(** Line 179. *)
Definition osm_link (lat2 lon2 : number) : string :=
  "<a " ++ attribute "class" "link" ++ " "
  ++ attribute "href"
       ("https://www.openstreetmap.org/?mlat=" ++ number_to_string lat2
        ++ "&mlon=" ++ number_to_string lon2 ++ "#map=18/"
        ++ number_to_string lat2 ++ "/" ++ number_to_string lon2)
  ++ " " ++ attribute "target" "_blank" ++ " "
  ++ attribute "rel" "noopener" ++ ">View on OSM</a>".

(** Lines 148-181: the markup of one card, its substitutions evaluated in
    the order of the template. *)
Definition card_html (it : ranked) : completion string :=
  t <- Val.get (el (entry it)) "tags" ;;
  let tags := or_else t (VObj []) in
  name <- name_of tags ;;
  let lat2 := lat2 (entry it) in
  let lon2 := lon2 (entry it) in
  let distance := toFixed2 (distance it) in
  address <- address_of tags ;;
  phone <- phone_of tags ;;
  website <- website_of tags ;;
  opening <- opening_of tags ;;
  alt <- ToString name ;;
  heading <- escapeHtml_value name ;;
  where_ <- escapeHtml_value address ;;
  hours <- hours_line opening ;;
  call <- phone_link phone ;;
  site <- website_link website ;;
  Return (Js.nl
    ++ "        <img " ++ attribute "src" (mapImg lat2 lon2) ++ " "
    ++ attribute "alt" alt ++ ">" ++ Js.nl
    ++ "        <h3>" ++ heading ++ "</h3>" ++ Js.nl
    ++ "        <p " ++ attribute "class" "meta" ++ ">Distance: <strong>"
    ++ distance ++ " km</strong></p>" ++ Js.nl
    ++ "        <p>" ++ where_ ++ "</p>" ++ Js.nl
    ++ "        " ++ hours ++ Js.nl
    ++ "        <div " ++ attribute "class" "meta" ++ ">" ++ Js.nl
    ++ "          " ++ call ++ Js.nl
    ++ "          " ++ site ++ Js.nl
    ++ "          " ++ osm_link lat2 lon2 ++ Js.nl
    ++ "        </div>" ++ Js.nl
    ++ "      ").

(** The loop of line 147: the cards appended, and what it threw if it did
    not reach its end. *)
Fixpoint render_cards (l : list ranked) : list string * option exn :=
  match l with
  | [] => ([], None)
  | it :: rest =>
      match card_html it with
      | Throw e => ([], Some e)
      | Return html =>
          let (appended, thrown) := render_cards rest in
          (html :: appended, thrown)
      end
  end.

(** Lines 144-188 given how lines 57-145 ended: the cards are built from
    the list to show, and an exception on the way replaces the status line
    (line 187) and leaves the cards appended so far. *)
Definition finish (o : outcome) : page :=
  match o with
  | Found total toShow =>
      match render_cards toShow with
      | (appended, None) => mkPage (status_text o) appended
      | (appended, Some e) => mkPage (status_text (UnexpectedFailure e)) appended
      end
  | _ => mkPage (status_text o) []
  end.

End Cards.

(** ** Vocabulary of the statements about the card loop *)

Definition is_string (v : value) : bool :=
  match v with VStr _ => true | _ => false end.

Definition string_or_undefined (v : value) : bool :=
  match v with VStr _ | VUndefined => true | _ => false end.

Definition string_or_null (v : value) : bool :=
  match v with VStr _ | VNull => true | _ => false end.

(** The telephone number line 162 finds in the tags of an element, when it
    is a string: the text line 177 hands to [encodeURI]. *)
Definition phone_text (e : value) : option string :=
  match Val.get e "tags" with
  | Return t =>
      match phone_of (or_else t (VObj [])) with
      | Return (VStr p) => Some p
      | _ => None
      end
  | Throw _ => None
  end.

(** [encodeURI] returns on the telephone number of the element, if it has
    one. *)
Definition encodable (encodeURI : string -> completion string) (e : value)
  : Prop :=
  forall p, phone_text e = Some p -> exists s, encodeURI p = Return s.

(** The element carries no [tags] object, or one in which every value is a
    string, as the tags of map data are. *)
Definition string_tags (e : value) : bool :=
  match Val.get e "tags" with
  | Return (VObj props) => forallb (fun p => is_string (snd p)) props
  | Return _ => true
  | Throw _ => false
  end.

(** ** Properties of the card loop *)

Lemma lookup_string_tags (k : string) (props : list (string * value)) :
  forallb (fun p => is_string (snd p)) props = true ->
  string_or_undefined (Val.lookup k props) = true.
Proof.
  induction props as [|[k' v] props IH]; simpl; [reflexivity|].
  intros H. apply andb_true_iff in H as [Hv Hp].
  destruct (String.eqb k k'); [|auto].
  now destruct v.
Qed.

(** Under string tags every tag read by the loop is a string or is
    missing. *)
Lemma string_tags_get (e t : value) (k : string) :
  string_tags e = true ->
  Val.get e "tags" = Return t ->
  String.eqb k "length" = false ->
  exists v,
    Val.get (or_else t (VObj [])) k = Return v
    /\ string_or_undefined v = true.
Proof.
  unfold string_tags, or_else. intros Hs Ht Hk. rewrite Ht in Hs.
  destruct t as [| |b|n|s|l|props]; simpl.
  - eauto.
  - eauto.
  - destruct b; simpl; eauto.
  - destruct (negb (Num.isNaN n || Num.is_zero n)); simpl; eauto.
  - destruct (negb (String.eqb s "")); simpl; [rewrite Hk|]; eauto.
  - rewrite Hk. eauto.
  - eauto using lookup_string_tags.
Qed.

Lemma or_else_string_or_undefined (a b : value) :
  string_or_undefined a = true -> string_or_undefined b = true ->
  string_or_undefined (or_else a b) = true.
Proof. unfold or_else. now destruct (Val.truthy a). Qed.

Lemma or_else_default_string (a : value) (d : string) :
  string_or_undefined a = true -> is_string (or_else a (VStr d)) = true.
Proof. unfold or_else. destruct a; simpl; auto; try discriminate.
  now destruct (negb (String.eqb s "")). Qed.

Lemma or_else_default_null (a : value) :
  string_or_undefined a = true -> string_or_null (or_else a VNull) = true.
Proof. unfold or_else. destruct a; simpl; auto; try discriminate.
  now destruct (negb (String.eqb s "")). Qed.

Lemma escapeHtml_value_string_or_null (v : value) :
  string_or_null v = true -> exists s, escapeHtml_value v = Return s.
Proof.
  unfold escapeHtml_value. destruct v; try discriminate; simpl; eauto.
  destruct (negb (String.eqb s "")); simpl; eauto.
Qed.

Section CardProperties.

Variable number_to_string : number -> string.
Variable toFixed2 : number -> string.
Variable encodeURI : string -> completion string.

Local Abbreviation ToString := (ToString number_to_string).
Local Abbreviation address_of := (address_of number_to_string).
Local Abbreviation card_html := (card_html number_to_string toFixed2 encodeURI).
Local Abbreviation render_cards := (render_cards number_to_string toFixed2 encodeURI).
Local Abbreviation finish := (finish number_to_string toFixed2 encodeURI).
Local Abbreviation phone_link := (phone_link number_to_string encodeURI).
Local Abbreviation encodable := (encodable encodeURI).

Lemma join_strings (sep : string) (l : list value) :
  Forall (fun v => is_string v = true) l ->
  exists s, join ToString sep l = Return s.
Proof.
  induction l as [|x l IH]; intros H; simpl; [eauto|].
  inversion H as [|? ? Hx Hl]; subst.
  destruct x; try discriminate. simpl.
  destruct l as [|y l]; [eauto|].
  destruct (IH Hl) as [sr Hsr]. rewrite Hsr. eauto.
Qed.

Section UnderStringTags.

Variables e t : value.
Hypothesis Hs : string_tags e = true.
Hypothesis Ht : Val.get e "tags" = Return t.

Local Abbreviation tags := (or_else t (VObj [])).

Ltac read_tag k v Hv Hsv :=
  destruct (string_tags_get e t k Hs Ht eq_refl) as (v & Hv & Hsv);
  rewrite Hv.

Lemma name_of_string : exists s, name_of tags = Return (VStr s).
Proof.
  unfold name_of.
  read_tag "name" n Hn Hsn. read_tag "ref" r Hr Hsr.
  pose proof (or_else_default_string _ "Unnamed Hospital/Clinic"
                (or_else_string_or_undefined _ _ Hsn Hsr)) as H.
  destruct (or_else (or_else n r) (VStr "Unnamed Hospital/Clinic"));
    try discriminate. eauto.
Qed.

Lemma phone_of_string : exists v, phone_of tags = Return v /\ string_or_null v = true.
Proof.
  unfold phone_of.
  read_tag "phone" a Ha Hsa. read_tag "contact:phone" b Hb Hsb.
  read_tag "telephone" c Hc Hsc.
  eexists. split; [reflexivity|].
  auto using or_else_default_null, or_else_string_or_undefined.
Qed.

Lemma website_of_string :
  exists v, website_of tags = Return v /\ string_or_null v = true.
Proof.
  unfold website_of.
  read_tag "website" a Ha Hsa. read_tag "contact:website" b Hb Hsb.
  eexists. split; [reflexivity|].
  auto using or_else_default_null, or_else_string_or_undefined.
Qed.

Lemma opening_of_string :
  exists v, opening_of tags = Return v /\ string_or_null v = true.
Proof.
  unfold opening_of.
  read_tag "opening_hours" a Ha Hsa.
  eexists. split; [reflexivity|].
  auto using or_else_default_null, or_else_string_or_undefined.
Qed.

Lemma addrParts_strings (keys : list string) :
  Forall (fun k => String.eqb k "length" = false) keys ->
  exists parts,
    addrParts tags keys = Return parts
    /\ Forall (fun v => is_string v = true) parts.
Proof.
  induction keys as [|k keys IH]; intros H; simpl; [eauto|].
  inversion H as [|? ? Hk Hks]; subst.
  destruct (string_tags_get e t k Hs Ht Hk) as (v & Hv & Hsv). rewrite Hv.
  destruct (IH Hks) as (parts & Hp & Hall). rewrite Hp.
  eexists. split; [reflexivity|].
  destruct (Val.truthy v) eqn:Htv; [|exact Hall].
  constructor; [|exact Hall]. destruct v; try discriminate; reflexivity.
Qed.

Lemma address_of_string : exists s, address_of tags = Return (VStr s).
Proof.
  unfold address_of.
  destruct (addrParts_strings address_keys) as (parts & Hp & Hall).
  { repeat constructor. }
  rewrite Hp.
  destruct (join_strings ", " parts Hall) as [joined Hj]. rewrite Hj.
  read_tag "address" a Ha Hsa.
  pose proof (or_else_default_string _ "Address not available" Hsa) as H.
  unfold or_else at 1. simpl.
  destruct (negb (String.eqb joined "")); [eauto|].
  destruct (or_else a (VStr "Address not available")); try discriminate. eauto.
Qed.

End UnderStringTags.

Lemma hours_line_returns (v : value) :
  string_or_null v = true -> exists s, hours_line v = Return s.
Proof.
  intros H. unfold hours_line.
  destruct (Val.truthy v); [|eauto].
  destruct (escapeHtml_value_string_or_null v H) as [s Hv]. rewrite Hv. eauto.
Qed.

Lemma phone_link_returns (v : value) :
  string_or_null v = true ->
  (forall p, v = VStr p -> exists s, encodeURI p = Return s) ->
  exists s, phone_link v = Return s.
Proof.
  intros H Henc. unfold phone_link.
  destruct v as [| |b|n|p|l|props]; try discriminate; [simpl; eauto|].
  destruct (Val.truthy (VStr p)); [|eauto].
  destruct (escapeHtml_value_string_or_null (VStr p) H) as [s Hv]. rewrite Hv.
  cbn [ToString].
  destruct (Henc p eq_refl) as [enc Hp]. simpl. rewrite Hp. simpl. eauto.
Qed.

Lemma website_link_returns (v : value) :
  string_or_null v = true -> exists s, website_link v = Return s.
Proof.
  intros H. unfold website_link, escapeHtmlAttr_value.
  destruct (Val.truthy v); [|eauto].
  destruct (escapeHtml_value_string_or_null v H) as [s Hv]. rewrite Hv. eauto.
Qed.

(** Under string tags a card is built whenever its telephone number, if it
    has one, can be encoded. *)
Lemma card_html_returns (it : ranked) :
  string_tags (el (entry it)) = true ->
  encodable (el (entry it)) ->
  exists html, card_html it = Return html.
Proof.
  intros Hs Henc. unfold card_html. unfold encodable, phone_text in Henc.
  destruct (Val.get (el (entry it)) "tags") as [t|err] eqn:Ht.
  2:{ unfold string_tags in Hs. rewrite Ht in Hs. discriminate. }
  destruct (name_of_string _ _ Hs Ht) as [name Hn]. rewrite Hn.
  destruct (address_of_string _ _ Hs Ht) as [address Ha]. rewrite Ha.
  destruct (phone_of_string _ _ Hs Ht) as (phone & Hp & Hsp). rewrite Hp.
  rewrite Hp in Henc.
  destruct (website_of_string _ _ Hs Ht) as (website & Hw & Hsw). rewrite Hw.
  destruct (opening_of_string _ _ Hs Ht) as (opening & Ho & Hso). rewrite Ho.
  cbn [ToString].
  destruct (escapeHtml_value_string_or_null (VStr name) eq_refl) as [h Hh].
  rewrite Hh.
  destruct (escapeHtml_value_string_or_null (VStr address) eq_refl) as [a' Ha'].
  rewrite Ha'.
  destruct (hours_line_returns opening Hso) as [hours Hhours]. rewrite Hhours.
  destruct (phone_link_returns phone Hsp) as [call Hcall].
  { intros p ->. now apply Henc. }
  rewrite Hcall.
  destruct (website_link_returns website Hsw) as [site Hsite]. rewrite Hsite.
  eauto.
Qed.

Lemma render_cards_all (l : list ranked) :
  Forall (fun it => string_tags (el (entry it)) = true) l ->
  Forall (fun it => encodable (el (entry it))) l ->
  exists appended,
    render_cards l = (appended, None)
    /\ List.length appended = List.length l.
Proof.
  induction l as [|it l IH]; intros H He; simpl; [eauto|].
  inversion H as [|? ? Hit Hl]; subst.
  inversion He as [|? ? Heit Hel]; subst.
  destruct (card_html_returns it Hit Heit) as [html Hh]. rewrite Hh.
  destruct (IH Hl Hel) as (appended & Hr & Hlen). rewrite Hr.
  eexists. split; [reflexivity|]. simpl. now rewrite Hlen.
Qed.

(** X18.  When the tags of every record to show hold only strings, and
    [encodeURI] returns on the telephone number of every record that has
    one (it throws on a string with an unpaired surrogate), the loop builds
    one card for each record and reaches its end: the status line stays the
    one of line 145. *)
Theorem string_tags_render_every_card (total : nat) (toShow : list ranked) :
  Forall (fun it => string_tags (el (entry it)) = true) toShow ->
  Forall (fun it => encodable (el (entry it))) toShow ->
  exists appended,
    finish (Found total toShow)
    = mkPage ("Found " ++ Js.dec total ++ " items; showing nearest "
              ++ Js.dec (List.length toShow) ++ ".")%string appended
    /\ List.length appended = List.length toShow.
Proof.
  intros H He. unfold finish.
  destruct (render_cards_all toShow H He) as (appended & Hr & Hlen).
  rewrite Hr. eauto.
Qed.

End CardProperties.

Lemma get_truthy (x : value) (k : string) :
  Val.truthy x = true -> exists v, Val.get x k = Return v.
Proof. destruct x; simpl; try discriminate; eauto. Qed.

Lemma or_else_truthy (a b : value) :
  Val.truthy b = true -> Val.truthy (or_else a b) = true.
Proof. unfold or_else. now destruct (Val.truthy a) eqn:E. Qed.

Lemma escapeHtml_value_throws (v : value) :
  Val.truthy v = true -> is_string v = false ->
  escapeHtml_value v = Throw (Error "s.replace is not a function").
Proof.
  unfold escapeHtml_value. intros -> Hs.
  destruct v; try reflexivity; discriminate.
Qed.

Section CardFailures.

Variable number_to_string : number -> string.
Variable toFixed2 : number -> string.
Variable encodeURI : string -> completion string.

Local Abbreviation card_html := (card_html number_to_string toFixed2 encodeURI).
Local Abbreviation render_cards := (render_cards number_to_string toFixed2 encodeURI).
Local Abbreviation finish := (finish number_to_string toFixed2 encodeURI).

(** A name that is truthy and not a string has no [replace] to call: the
    card is not built. *)
Lemma card_html_throws (it : ranked) (t v : value) :
  Val.get (el (entry it)) "tags" = Return t ->
  Val.get (or_else t (VObj [])) "name" = Return v ->
  Val.truthy v = true ->
  is_string v = false ->
  exists e, card_html it = Throw e.
Proof.
  intros Ht Hv Htv Hsv. unfold card_html. rewrite Ht. cbv zeta.
  unfold name_of. rewrite Hv.
  destruct (get_truthy (or_else t (VObj [])) "ref"
              (or_else_truthy t (VObj []) eq_refl)) as [r Hr].
  rewrite Hr.
  replace (or_else (or_else v r) (VStr "Unnamed Hospital/Clinic")) with v
    by (unfold or_else; now rewrite Htv, Htv).
  rewrite (escapeHtml_value_throws v Htv Hsv).
  repeat match goal with
         | |- exists e, match ?c with Return _ => _ | Throw _ => _ end = Throw e =>
             destruct c; [|eauto]
         end.
  eauto.
Qed.

Lemma render_cards_stops (before : list ranked) (it : ranked) (after : list ranked)
  (e : exn) :
  card_html it = Throw e ->
  forall shown,
    render_cards before = (shown, None) ->
    render_cards (before ++ it :: after) = (shown, Some e).
Proof.
  intros He. induction before as [|b before IH]; simpl; intros shown H.
  - injection H as <-. now rewrite He.
  - destruct (card_html b) as [html|err]; [|discriminate].
    destruct (render_cards before) as [appended thrown].
    injection H as <- ->.
    now rewrite (IH appended eq_refl).
Qed.

(** X19.  A record whose name tag is truthy and not a string (a number,
    say) stops the loop: the cards of the records before it stay, no later
    record gets a card, and the status line of line 145 is replaced by the
    generic error message. *)
Theorem non_string_name_stops_rendering (total : nat)
  (before : list ranked) (it : ranked) (after : list ranked)
  (shown : list string) (t v : value) :
  render_cards before = (shown, None) ->
  Val.get (el (entry it)) "tags" = Return t ->
  Val.get (or_else t (VObj [])) "name" = Return v ->
  Val.truthy v = true ->
  is_string v = false ->
  finish (Found total (before ++ it :: after))
  = mkPage "An error occurred while searching. See console for details." shown.
Proof.
  intros Hb Ht Hv Htv Hsv.
  destruct (card_html_throws it t v Ht Hv Htv Hsv) as [e He].
  unfold finish. now rewrite (render_cards_stops before it after e He shown Hb).
Qed.

End CardFailures.

(** ** The whole function *)

Section Page.

Variable JSON_parse : string -> completion value.
Variable network : nat -> string -> fetch_outcome.
Variable parseFloat_string : string -> number.
Variable number_to_string : number -> string.
Variable encodeURIComponent : string -> completion string.
Variable haversine : number -> number -> number -> number -> number.
Variable toFixed2 : number -> string.
Variable encodeURI : string -> completion string.

(** [searchHospitals()] from its first line to its last: what the page
    shows afterwards, and the world. *)
Definition searchHospitals_page (input : string) (w : world) : page * world :=
  let (o, w') :=
    searchHospitals JSON_parse network parseFloat_string number_to_string
      encodeURIComponent haversine input w in
  (finish number_to_string toFixed2 encodeURI o, w').

(** X20.  Cards are only ever shown after a geodata answer: with blank
    input, a place not found, a failed service or an empty element list the
    page shows its message and no card; and a page never shows more than
    thirty cards. *)
Theorem page_cards_bounded (input : string) (w : world) :
  List.length (cards (fst (searchHospitals_page input w))) <= 30
  /\ (match fst (searchHospitals JSON_parse network parseFloat_string
                   number_to_string encodeURIComponent haversine input w) with
      | Found _ _ => True
      | _ => cards (fst (searchHospitals_page input w)) = []
      end).
Proof.
  unfold searchHospitals_page.
  pose proof (searchHospitals_present_inv JSON_parse network parseFloat_string
                number_to_string encodeURIComponent haversine input w) as Hinv.
  destruct (searchHospitals JSON_parse network parseFloat_string number_to_string
              encodeURIComponent haversine input w) as [o w'].
  specialize (Hinv w' o eq_refl). cbn [fst].
  destruct o as [| | |p|total toShow|e]; simpl; try (split; [lia|reflexivity]).
  split; [|exact I].
  destruct Hinv as (lat & lon & json & Hp).
  destruct (present_found_inv _ _ _ _ _ _ _ _ _ Hp)
    as (els & items & _ & _ & _ & _ & ->).
  pose proof (rank_length haversine lat lon items) as Hlen.
  assert (Hle : forall l : list ranked,
            List.length (fst (render_cards number_to_string toFixed2 encodeURI l))
            <= List.length l).
  { induction l as [|it l IH]; simpl; [lia|].
    destruct (card_html number_to_string toFixed2 encodeURI it); simpl; [|lia].
    destruct (render_cards number_to_string toFixed2 encodeURI l); simpl in *. lia. }
  specialize (Hle (rank haversine lat lon items)).
  rewrite Hlen in Hle.
  destruct (render_cards number_to_string toFixed2 encodeURI
              (rank haversine lat lon items)) as [appended [e|]];
    cbn [fst cards] in *; lia.
Qed.

End Page.

(** ** Sample records and the further properties at the samples *)

Module SampleCards.

(** Agrees with [toFixed(2)] on 0 and 10.0071, the distances the samples
    print, and on what is not finite. *)
Definition toFixed2 (n : number) : string :=
  match n with
  | NaN => "NaN"
  | PInf => "Infinity"
  | NInf => "-Infinity"
  | Fin q => if Qeq_bool q 10.0071 then "10.01" else "0.00"
  end.

(** Agrees with [encodeURI] on the telephone number of the samples, in
    which nothing is to encode. *)
Definition encodeURI (s : string) : completion string := Return s.

Definition located_at_origin (tags : list (string * value)) : ranked :=
  mkRanked
    (mkItem (VObj (("lat", VNum (Fin 11.41)) :: ("lon", VNum (Fin 76.7)) :: tags))
            (Fin 11.41) (Fin 76.7))
    (Fin 0).

(** A record with string tags, special characters in its name. *)
Definition clinic : ranked :=
  located_at_origin
    [("tags", VObj [("name", VStr "R&D <Clinic>");
                    ("addr:street", VStr "Main Rd");
                    ("addr:city", VStr "Ooty");
                    ("phone", VStr "+914232444444")])].

(** A record without tags. *)
Definition unnamed : ranked := located_at_origin [].

(** A mark of three code units that stands for a high surrogate on its
    own, U+D83D, which the 8-bit strings cannot hold, and an encoder that
    throws on the strings holding the mark, as [encodeURI] and
    [encodeURIComponent] throw on an unpaired surrogate. *)
Definition lone_surrogate : string :=
  String (Ascii.ascii_of_nat 237) (String (Ascii.ascii_of_nat 160)
    (String (Ascii.ascii_of_nat 189) EmptyString)).

Definition strict_encodeURI (s : string) : completion string :=
  if Js.includes lone_surrogate s then Throw (Error "URI malformed")
  else Return s.

(** A record with string tags whose telephone number holds the lone
    surrogate. *)
Definition garbled : ranked :=
  located_at_origin
    [("tags", VObj [("name", VStr "Clinic");
                    ("phone", VStr ("+91" ++ lone_surrogate))])].

(** A record whose name is a number. *)
Definition ambulance : ranked :=
  located_at_origin [("tags", VObj [("name", VNum (Fin 108))])].

(** The first geocoding URL for the place Ooty. *)
Definition nominatim_ooty : string :=
  "https://nominatim.openstreetmap.org/search?format=json&limit=1&q=Ooty, Tamil Nadu, India".

Definition geo_candidate : value :=
  VObj [("lat", VStr "11.41"); ("lon", VStr "76.70")].

(** The geocoding URLs for the place Ooty, and the Overpass URLs for the
    origin of [geo_candidate]. *)
Definition geocoders_ooty : list string :=
  geoUrls "Ooty, Tamil Nadu, India" "Ooty, Tamil Nadu, India".

Definition overpass_ooty : list string :=
  overpassList (overpassQuery Sample.number_to_string (Fin 11.41) (Fin 76.7)).

End SampleCards.

Local Abbreviation sample_search_on net :=
  (searchHospitals Sample.JSON_parse net Sample.parseFloat_string
     Sample.number_to_string Sample.encodeURIComponent Sample.haversine).
Local Abbreviation sample_card_html :=
  (card_html Sample.number_to_string SampleCards.toFixed2 SampleCards.encodeURI).
Local Abbreviation sample_render_cards :=
  (render_cards Sample.number_to_string SampleCards.toFixed2 SampleCards.encodeURI).
Local Abbreviation sample_finish :=
  (finish Sample.number_to_string SampleCards.toFixed2 SampleCards.encodeURI).

Lemma searchHospitals_asks_nominatim_first_witness :
  Js.all_space " Ooty " = false
  /\ match Sample.encodeURIComponent (Js.trim " Ooty " ++ ", Tamil Nadu, India") with
     | Return q =>
         exists later,
           fetched (snd (sample_search_on Sample.serving " Ooty " []))
           = (fetched []
              ++ ("https://nominatim.openstreetmap.org/search?format=json&limit=1&q="
                  ++ q)%string
              :: later)%list
     | Throw e =>
         sample_search_on Sample.serving " Ooty " [] = (UnexpectedFailure e, [])
     end.
Proof.
  split.
  - reflexivity.
  - apply (searchHospitals_asks_nominatim_first Sample.JSON_parse Sample.serving
             Sample.parseFloat_string Sample.number_to_string
             Sample.encodeURIComponent Sample.haversine " Ooty " []).
    reflexivity.
Defined.

Lemma searchHospitals_geocoding_down_witness :
  (Js.all_space "Ooty" = false
   /\ geoEndpoints Sample.encodeURIComponent (Js.trim "Ooty")
      = Return SampleCards.geocoders_ooty
   /\ all_fail Sample.JSON_parse Sample.all_down (requests [])
        (schedule SampleCards.geocoders_ooty 2) = true)
  /\ ((exists e, fst (sample_search_on Sample.all_down "Ooty" []) = UnexpectedFailure e)
      /\ status_text (fst (sample_search_on Sample.all_down "Ooty" []))
         = "An error occurred while searching. See console for details."
      /\ fetched (snd (sample_search_on Sample.all_down "Ooty" []))
         = (fetched [] ++ schedule SampleCards.geocoders_ooty 2)%list
      /\ List.length (schedule SampleCards.geocoders_ooty 2) = 4).
Proof.
  split.
  - repeat split; reflexivity.
  - apply (searchHospitals_geocoding_down Sample.JSON_parse Sample.all_down
             Sample.parseFloat_string Sample.number_to_string
             Sample.encodeURIComponent Sample.haversine "Ooty" []
             SampleCards.geocoders_ooty);
      reflexivity.
Defined.

Lemma searchHospitals_geodata_down_witness :
  (Js.all_space "Ooty" = false
   /\ geoEndpoints Sample.encodeURIComponent (Js.trim "Ooty")
      = Return SampleCards.geocoders_ooty
   /\ tryFetchJson Sample.JSON_parse Sample.geodata_down
        SampleCards.geocoders_ooty 2 []
      = (Return (mkFetched (VArr [SampleCards.geo_candidate])
                           SampleCards.nominatim_ooty),
         [Fetch SampleCards.nominatim_ooty])
   /\ data (mkFetched (VArr [SampleCards.geo_candidate]) SampleCards.nominatim_ooty)
      = VArr [SampleCards.geo_candidate]
   /\ origin Sample.parseFloat_string Sample.number_to_string
        SampleCards.geo_candidate = Return (Fin 11.41, Fin 76.7)
   /\ overpassUrls Sample.number_to_string Sample.encodeURIComponent
        (Fin 11.41) (Fin 76.7) = Return SampleCards.overpass_ooty
   /\ all_fail Sample.JSON_parse Sample.geodata_down
        (requests [Fetch SampleCards.nominatim_ooty])
        (schedule SampleCards.overpass_ooty 3) = true)
  /\ (fst (sample_search_on Sample.geodata_down "Ooty" []) = GeodataUnavailable
      /\ status_text (fst (sample_search_on Sample.geodata_down "Ooty" []))
         = "Failed to fetch hospital data (server busy or rate-limited). Try again in a moment."
      /\ fetched (snd (sample_search_on Sample.geodata_down "Ooty" []))
         = (fetched [Fetch SampleCards.nominatim_ooty]
            ++ schedule SampleCards.overpass_ooty 3)%list
      /\ List.length (schedule SampleCards.overpass_ooty 3) = 6).
Proof.
  split.
  - repeat split; reflexivity.
  - apply (searchHospitals_geodata_down Sample.JSON_parse Sample.geodata_down
             Sample.parseFloat_string Sample.number_to_string
             Sample.encodeURIComponent Sample.haversine "Ooty" []
             [Fetch SampleCards.nominatim_ooty]
             SampleCards.geocoders_ooty SampleCards.overpass_ooty
             (mkFetched (VArr [SampleCards.geo_candidate]) SampleCards.nominatim_ooty)
             SampleCards.geo_candidate [] (Fin 11.41) (Fin 76.7));
      reflexivity.
Defined.

Lemma null_element_fails_search_witness :
  (Val.get (Sample.response_of [Sample.at_km 210; VNull]) "elements"
   = Return (VArr [Sample.at_km 210; VNull])
   /\ In VNull [Sample.at_km 210; VNull])
  /\ ((exists e,
         sample_present (Sample.response_of [Sample.at_km 210; VNull])
         = UnexpectedFailure e)
      /\ status_text (sample_present (Sample.response_of [Sample.at_km 210; VNull]))
         = "An error occurred while searching. See console for details.").
Proof.
  split.
  - split; [reflexivity|]. right. left. reflexivity.
  - apply (null_element_fails_search Sample.parseFloat_string
             Sample.number_to_string Sample.haversine (Fin 0) (Fin 0) "Ooty"
             (Sample.response_of [Sample.at_km 210; VNull])
             [Sample.at_km 210; VNull]).
    + reflexivity.
    + right. left. reflexivity.
Defined.

Lemma found_counts_bounded_witness :
  sample_present (Sample.response_of Sample.ten)
    = Found 10 (sample_rank (map Sample.item_at Sample.eight))
  /\ (1 <= 10
      /\ List.length (sample_rank (map Sample.item_at Sample.eight)) <= 30
      /\ List.length (sample_rank (map Sample.item_at Sample.eight)) <= 10).
Proof.
  split.
  - reflexivity.
  - apply (found_counts_bounded Sample.parseFloat_string Sample.number_to_string
             Sample.haversine (Fin 0) (Fin 0) "Ooty"
             (Sample.response_of Sample.ten)).
    reflexivity.
Defined.

Lemma rank_keeps_all_when_few_witness :
  List.length (map Sample.item_at Sample.five) <= 30
  /\ Permutation (sample_rank (map Sample.item_at Sample.five))
       (map (attach_distance Sample.haversine (Fin 0) (Fin 0))
            (map Sample.item_at Sample.five)).
Proof.
  split.
  - apply Nat.leb_le. reflexivity.
  - apply (rank_keeps_all_when_few Sample.haversine (Fin 0) (Fin 0)
             (map Sample.item_at Sample.five)).
    apply Nat.leb_le. reflexivity.
Defined.

Lemma sort_by_distance_keeps_ascending_witness :
  StronglySorted (fun a b => Num.leb (distance a) (distance b) = true)
    [mkRanked (Sample.item_at 50) (Fin (1 # 2));
     mkRanked (Sample.item_at 100) (Fin 1);
     mkRanked (Sample.item_at 210) (Fin (21 # 10))]
  /\ Arr.sort by_distance
       [mkRanked (Sample.item_at 50) (Fin (1 # 2));
        mkRanked (Sample.item_at 100) (Fin 1);
        mkRanked (Sample.item_at 210) (Fin (21 # 10))]
     = [mkRanked (Sample.item_at 50) (Fin (1 # 2));
        mkRanked (Sample.item_at 100) (Fin 1);
        mkRanked (Sample.item_at 210) (Fin (21 # 10))].
Proof.
  split.
  - repeat constructor.
  - apply (sort_by_distance_keeps_ascending
             [mkRanked (Sample.item_at 50) (Fin (1 # 2));
              mkRanked (Sample.item_at 100) (Fin 1);
              mkRanked (Sample.item_at 210) (Fin (21 # 10))]).
    repeat constructor.
Defined.

Lemma sort_by_distance_stable_witness :
  Forall (fun r => Num.isNaN (distance r) = false)
    [mkRanked (Sample.item_at 100) (Fin 1);
     mkRanked (Sample.item_at 50) (Fin (1 # 2));
     mkRanked (Sample.item_at 210) (Fin 1)]
  /\ filter (fun r => same_number (distance r) (Fin 1))
       (Arr.sort by_distance
          [mkRanked (Sample.item_at 100) (Fin 1);
           mkRanked (Sample.item_at 50) (Fin (1 # 2));
           mkRanked (Sample.item_at 210) (Fin 1)])
     = filter (fun r => same_number (distance r) (Fin 1))
         [mkRanked (Sample.item_at 100) (Fin 1);
          mkRanked (Sample.item_at 50) (Fin (1 # 2));
          mkRanked (Sample.item_at 210) (Fin 1)].
Proof.
  split.
  - repeat constructor.
  - apply (sort_by_distance_stable (Fin 1)
             [mkRanked (Sample.item_at 100) (Fin 1);
              mkRanked (Sample.item_at 50) (Fin (1 # 2));
              mkRanked (Sample.item_at 210) (Fin 1)]).
    repeat constructor.
Defined.

Lemma string_tags_render_every_card_witness :
  (Forall (fun it => string_tags (el (entry it)) = true)
     [SampleCards.clinic; SampleCards.unnamed]
   /\ Forall (fun it => encodable SampleCards.encodeURI (el (entry it)))
        [SampleCards.clinic; SampleCards.unnamed])
  /\ exists appended,
       sample_finish (Found 2 [SampleCards.clinic; SampleCards.unnamed])
       = mkPage ("Found " ++ Js.dec 2 ++ " items; showing nearest "
                 ++ Js.dec (List.length [SampleCards.clinic; SampleCards.unnamed])
                 ++ ".")%string appended
       /\ List.length appended
          = List.length [SampleCards.clinic; SampleCards.unnamed].
Proof.
  split.
  - split.
    + repeat constructor.
    + repeat constructor; intros p _; exists p; reflexivity.
  - apply (string_tags_render_every_card Sample.number_to_string
             SampleCards.toFixed2 SampleCards.encodeURI 2
             [SampleCards.clinic; SampleCards.unnamed]).
    + repeat constructor.
    + repeat constructor; intros p _; exists p; reflexivity.
Defined.

Lemma non_string_name_stops_rendering_witness :
  (sample_render_cards [SampleCards.clinic]
   = (fst (sample_render_cards [SampleCards.clinic]), None)
   /\ Val.get (el (entry SampleCards.ambulance)) "tags"
      = Return (VObj [("name", VNum (Fin 108))])
   /\ Val.get (or_else (VObj [("name", VNum (Fin 108))]) (VObj [])) "name"
      = Return (VNum (Fin 108))
   /\ Val.truthy (VNum (Fin 108)) = true
   /\ is_string (VNum (Fin 108)) = false)
  /\ sample_finish
       (Found 3 ([SampleCards.clinic] ++ SampleCards.ambulance :: [SampleCards.unnamed]))
     = mkPage "An error occurred while searching. See console for details."
         (fst (sample_render_cards [SampleCards.clinic])).
Proof.
  split.
  - repeat split; reflexivity.
  - apply (non_string_name_stops_rendering Sample.number_to_string
             SampleCards.toFixed2 SampleCards.encodeURI 3
             [SampleCards.clinic] SampleCards.ambulance [SampleCards.unnamed]
             (fst (sample_render_cards [SampleCards.clinic]))
             (VObj [("name", VNum (Fin 108))]) (VNum (Fin 108)));
      reflexivity.
Defined.

(** A telephone number that cannot be encoded stops the loop at its card,
    string tags or not: the cards before it stay, the status line is the
    generic one. *)
Example unencodable_phone_stops_rendering :
  string_tags (el (entry SampleCards.garbled)) = true
  /\ finish Sample.number_to_string SampleCards.toFixed2
       SampleCards.strict_encodeURI
       (Found 3 [SampleCards.clinic; SampleCards.garbled; SampleCards.unnamed])
     = mkPage "An error occurred while searching. See console for details."
         (fst (render_cards Sample.number_to_string SampleCards.toFixed2
                 SampleCards.strict_encodeURI [SampleCards.clinic]))
  /\ List.length
       (fst (render_cards Sample.number_to_string SampleCards.toFixed2
               SampleCards.strict_encodeURI [SampleCards.clinic])) = 1.
Proof. vm_compute. repeat split. Qed.

(** A place that cannot be encoded ends the search with the generic
    failure before any request. *)
Example unencodable_place_sends_nothing :
  searchHospitals Sample.JSON_parse Sample.serving Sample.parseFloat_string
    Sample.number_to_string SampleCards.strict_encodeURI Sample.haversine
    ("Ooty" ++ SampleCards.lone_surrogate) []
  = (UnexpectedFailure (Error "URI malformed"), []).
Proof. reflexivity. Qed.

(** A coordinate that is an object with a [toString] of its own makes
    [parseFloat] throw, and the search ends with the generic failure. *)
Example object_coordinate_fails_search :
  sample_present
    (Sample.response_of
       [VObj [("lat", VObj [("toString", VNull)]); ("lon", VNum (Fin 76.7))]])
  = UnexpectedFailure (Error "Cannot convert object to primitive value").
Proof. reflexivity. Qed.

(** The card of the sample clinic: the heading is escaped, the [alt]
    attribute holds the name as it came, the address joins the parts that
    are there, and the record without tags gets the default texts. *)
Example card_sample :
  match sample_card_html SampleCards.clinic, sample_card_html SampleCards.unnamed with
  | Return html, Return bare =>
      Js.includes "<h3>R&amp;D &lt;Clinic&gt;</h3>" html = true
      /\ Js.includes (attribute "alt" "R&D <Clinic>") html = true
      /\ Js.includes "<p>Main Rd, Ooty</p>" html = true
      /\ Js.includes "<strong>0.00 km</strong>" html = true
      /\ Js.includes (attribute "href" "tel:+914232444444") html = true
      /\ Js.includes "Website" html = false
      /\ Js.includes "<h3>Unnamed Hospital/Clinic</h3>" bare = true
      /\ Js.includes "<p>Address not available</p>" bare = true
      /\ Js.includes "mlat=11.41&mlon=76.7#map=18/11.41/76.7" bare = true
  | _, _ => False
  end.
Proof. vm_compute. repeat split. Qed.

(* ================================================================== *)
(** * Part V: the arithmetic of [haversine] (script.js 15-25) *)
(* ================================================================== *)

(** [haversine] computes on IEEE doubles.  Here the doubles are Rocq's
    primitive binary64 floats, whose operations are the correctly rounded
    ones of the language, and Math.sin, Math.cos, Math.sqrt and Math.atan2,
    which the language only pins down at a few arguments, are parameters. *)

Module Double.

Section Haversine.

Variable Math_sin Math_cos Math_sqrt : float -> float.
Variable Math_atan2 : float -> float -> float.

(** [Math.PI], the double nearest to pi. *)
Definition Math_PI : float := 0x1.921fb54442d18p+1%float.

(** Line 16. *)
Definition toRad (d : float) : float := (d * Math_PI / 180)%float.

(** Line 17. *)
Definition R : float := 6371%float.

(** Lines 18-22: the constant [a]. *)
Definition a (lat1 lon1 lat2 lon2 : float) : float :=
  let dLat := toRad (lat2 - lat1)%float in
  let dLon := toRad (lon2 - lon1)%float in
  (Math_sin (dLat / 2) * Math_sin (dLat / 2)
   + Math_cos (toRad lat1) * Math_cos (toRad lat2)
     * Math_sin (dLon / 2) * Math_sin (dLon / 2))%float.

(** Lines 15-25. *)
Definition haversine (lat1 lon1 lat2 lon2 : float) : float :=
  let a := a lat1 lon1 lat2 lon2 in
  let c := (2 * Math_atan2 (Math_sqrt a) (Math_sqrt (1 - a)))%float in
  (R * c)%float.

End Haversine.

End Double.

(** Stand-ins for the Math functions.  They agree with the language where
    it fixes the result (sine of a zero, cosine of a zero and of what is
    not finite, square roots, arc tangent with a NaN argument and of +0
    over a positive number) and return the doubles nearest to the true
    values of the sine and cosine at the angles of 12 and 90 degrees and of
    the arc tangent of sin12 over cos12; at other arguments, which the
    samples do not reach, they return NaN. *)
Module SampleMath.

(** 12 degrees and 90 degrees in radians, as [toRad] computes them. *)
Definition rad12 : float := 0x1.acee9f37bebd5p-3%float.
Definition rad90 : float := 0x1.921fb54442d18p+0%float.

(** The sine and the cosine of [rad12]. *)
Definition sin12 : float := 0x1.a9cd9ac4258f5p-3%float.
Definition cos12 : float := 0x1.f4cfc327a0080p-1%float.

Definition Math_sin (x : float) : float :=
  if (x =? 0)%float then x
  else if (x =? rad12)%float then sin12
  else if (x =? - rad12)%float then (- sin12)%float
  else if (x =? rad90)%float then 1%float
  else if (x =? - rad90)%float then (-1)%float
  else nan.

Definition Math_cos (x : float) : float :=
  if (x =? 0)%float then 1%float
  else if (abs x =? rad12)%float then cos12
  else nan.

Definition Math_sqrt (x : float) : float := PrimFloat.sqrt x.

Definition Math_atan2 (y x : float) : float :=
  if is_nan y || is_nan x then nan
  else if (y =? sin12)%float && (x =? cos12)%float
  then 0x1.acee9f37bebd4p-3%float
  else
    match classify y with
    | FloatClass.PZero => if (0 <? x)%float then 0%float else nan
    | _ => nan
    end.

Definition a : float -> float -> float -> float -> float :=
  Double.a Math_sin Math_cos.

Definition haversine : float -> float -> float -> float -> float :=
  Double.haversine Math_sin Math_cos Math_sqrt Math_atan2.

Definition huge : float := 0x1.1ccf385ebc8a0p+1023%float.

End SampleMath.

(** ** Doubles against their specification *)

Local Open Scope Z_scope.









(** A finite double is a zero or a signed mantissa at an exponent. *)
Lemma finite_cases (x : float) :
  is_finite x = true ->
  (exists s, Prim2SF x = S754_zero s)
  \/ (exists s m e, Prim2SF x = S754_finite s m e).
Proof.
  unfold is_finite, is_nan, is_infinity.
  rewrite !eqb_spec, abs_spec.
  change (Prim2SF infinity) with (S754_infinity false).
  destruct (Prim2SF x) as [s|s| |s m e]; intros H.
  - left. eauto.
  - destruct s; discriminate H.
  - discriminate H.
  - right. eauto.
Qed.



(** [x - x] is +0 for a finite [x]. *)
Lemma sub_same (x : float) : is_finite x = true -> (x - x)%float = 0%float.
Proof.
  intros H. apply Prim2SF_inj. rewrite sub_spec.
  destruct (finite_cases x H) as [[s ->] | (s & m & e & ->)].
  - now destruct s.
  - unfold SF64sub, SFsub. cbv zeta. now rewrite Z.sub_diag.
Qed.



Lemma binary_round_aux_opp (s : bool) (m e : Z) (l : location) :
  binary_round_aux prec emax (negb s) m e l
  = SFopp (binary_round_aux prec emax s m e l).
Proof.
  unfold binary_round_aux.
  destruct (shr_fexp prec emax m e l) as [mrs' e'].
  destruct (shr_fexp prec emax _ e' loc_Exact) as [mrs'' e''].
  destruct (shr_m mrs''); simpl; try reflexivity.
  destruct (Z.leb e'' _); reflexivity.
Qed.

Lemma xorb_negb_l (a b : bool) : xorb (negb a) b = negb (xorb a b).
Proof. now destruct a, b. Qed.

Lemma SFmul_opp_l (x y : spec_float) :
  SFmul prec emax (SFopp x) y = SFopp (SFmul prec emax x y).
Proof.
  destruct x as [sx|sx| |sx mx ex], y as [sy|sy| |sy my ey]; simpl;
    rewrite ?xorb_negb_l; try reflexivity.
  apply binary_round_aux_opp.
Qed.

Lemma SFmul_comm (x y : spec_float) : SFmul prec emax x y = SFmul prec emax y x.
Proof.
  destruct x as [sx|sx| |sx mx ex], y as [sy|sy| |sy my ey]; simpl;
    rewrite ?(xorb_comm sx sy); try reflexivity.
  now rewrite Pos.mul_comm, Z.add_comm.
Qed.

Lemma SFdiv_opp_l (x y : spec_float) :
  SFdiv prec emax (SFopp x) y = SFopp (SFdiv prec emax x y).
Proof.
  destruct x as [sx|sx| |sx mx ex], y as [sy|sy| |sy my ey]; simpl;
    rewrite ?xorb_negb_l; try reflexivity.
  destruct (SFdiv_core_binary prec emax (Z.pos mx) ex (Z.pos my) ey)
    as [[mz ez] lz].
  apply binary_round_aux_opp.
Qed.

Lemma SFopp_involutive (x : spec_float) : SFopp (SFopp x) = x.
Proof. destruct x; simpl; now rewrite ?negb_involutive. Qed.

Lemma binary_normalize_opp (z e : Z) :
  binary_normalize prec emax (- z) e false
  = SFopp (binary_normalize prec emax z e false)
  \/ binary_normalize prec emax (- z) e false
     = binary_normalize prec emax z e false.
Proof.
  destruct z as [|p|p]; simpl.
  - right. reflexivity.
  - left. unfold binary_round.
    destruct (shl_align p e _) as [mz ez].
    apply (binary_round_aux_opp false).
  - left. unfold binary_round.
    destruct (shl_align p e _) as [mz ez].
    rewrite (binary_round_aux_opp false). now rewrite SFopp_involutive.
Qed.

(** Subtraction the other way round gives the opposite, or the same where
    the difference is +0 or NaN. *)
Lemma SFsub_swap (x y : spec_float) :
  SFsub prec emax y x = SFopp (SFsub prec emax x y)
  \/ SFsub prec emax y x = SFsub prec emax x y.
Proof.
  destruct x as [sx|sx| |sx mx ex], y as [sy|sy| |sy my ey];
    try (left; reflexivity); try (right; reflexivity);
    try (destruct sx, sy; simpl; auto; fail).
  simpl. rewrite (Z.min_comm ey ex).
  set (A := cond_Zopp sx _). set (B := cond_Zopp sy _).
  replace (Z.sub B A) with (Z.opp (Z.sub A B)) by lia.
  apply binary_normalize_opp.
Qed.

Local Close Scope Z_scope.

Lemma mul_opp_l (x y : float) : (- x * y = - (x * y))%float.
Proof.
  apply Prim2SF_inj. rewrite mul_spec, !opp_spec, mul_spec.
  apply SFmul_opp_l.
Qed.

Lemma mul_comm (x y : float) : (x * y = y * x)%float.
Proof. apply Prim2SF_inj. rewrite !mul_spec. apply SFmul_comm. Qed.

Lemma mul_opp_r (x y : float) : (x * - y = - (x * y))%float.
Proof. now rewrite mul_comm, mul_opp_l, mul_comm. Qed.

Lemma div_opp_l (x y : float) : (- x / y = - (x / y))%float.
Proof.
  apply Prim2SF_inj. rewrite div_spec, !opp_spec, div_spec.
  apply SFdiv_opp_l.
Qed.

Lemma opp_involutive (x : float) : (- - x = x)%float.
Proof. apply Prim2SF_inj. rewrite !opp_spec. apply SFopp_involutive. Qed.

Lemma sub_swap (x y : float) :
  (y - x = - (x - y))%float \/ (y - x = x - y)%float.
Proof.
  destruct (SFsub_swap (Prim2SF x) (Prim2SF y)) as [H|H]; [left|right];
    apply Prim2SF_inj; rewrite ?opp_spec, !sub_spec; exact H.
Qed.

(** Half the difference in radians, taken the other way round. *)
Lemma half_swap (x y : float) :
  (Double.toRad (x - y) / 2 = - (Double.toRad (y - x) / 2))%float
  \/ (Double.toRad (x - y) / 2 = Double.toRad (y - x) / 2)%float.
Proof.
  destruct (sub_swap y x) as [-> | ->]; [left|right; reflexivity].
  unfold Double.toRad. now rewrite mul_opp_l, !div_opp_l.
Qed.

(** ** The distance of a point from itself, and where the result is NaN *)

Section HaversineProperties.

Variable Math_sin Math_cos Math_sqrt : float -> float.
Variable Math_atan2 : float -> float -> float.

Local Abbreviation haversine :=
  (Double.haversine Math_sin Math_cos Math_sqrt Math_atan2).


(** X21.  At a finite latitude so large that [toRad] overflows, 1e308 for
    one, the distance of a point from itself is NaN: here only what the
    language fixes is used, the sine of +0, the cosine of an infinity and
    the square root and arc tangent of NaN. *)
Theorem haversine_overflow (lat lon : float) :
  is_finite lat = true ->
  is_finite lon = true ->
  Double.toRad lat = infinity ->
  Math_sin 0 = 0%float ->
  Math_cos infinity = nan ->
  Math_sqrt nan = nan ->
  Math_atan2 nan nan = nan ->
  haversine lat lon lat lon = nan.
Proof.
  intros Hlat Hlon Hinf Hsin Hcos Hsqrt Hatan.
  unfold Double.haversine, Double.a. cbv zeta.
  rewrite (sub_same lat Hlat), (sub_same lon Hlon), Hinf.
  change (Double.toRad 0 / 2)%float with 0%float.
  rewrite Hsin, Hcos.
  change (0 * 0 + nan * nan * 0 * 0)%float with nan.
  change (1 - nan)%float with nan.
  rewrite Hsqrt, Hatan. reflexivity.
Qed.

(** The squared sine of half a difference does not depend on the
    direction when the sine is odd there; neither does a product with it. *)
Lemma squared_sine_swap (x y : float) :
  Math_sin (- (Double.toRad (y - x) / 2))
  = (- Math_sin (Double.toRad (y - x) / 2))%float ->
  (Math_sin (Double.toRad (x - y) / 2) * Math_sin (Double.toRad (x - y) / 2)
   = Math_sin (Double.toRad (y - x) / 2) * Math_sin (Double.toRad (y - x) / 2))%float
  /\ forall p : float,
       (p * Math_sin (Double.toRad (x - y) / 2)
          * Math_sin (Double.toRad (x - y) / 2)
        = p * Math_sin (Double.toRad (y - x) / 2)
            * Math_sin (Double.toRad (y - x) / 2))%float.
Proof.
  intros Hodd.
  destruct (half_swap x y) as [-> | ->]; [|split; reflexivity].
  rewrite Hodd. split.
  - now rewrite mul_opp_l, mul_opp_r, opp_involutive.
  - intros p. now rewrite !mul_opp_r, mul_opp_l, opp_involutive.
Qed.

(** X22.  The distance is the same double in both directions (the same
    number, or NaN both ways) whenever Math.sin is odd at half the
    latitude difference and at half the longitude difference in radians,
    as a sine that is odd everywhere is.  Nothing is asked of the
    coordinates, nor of the other Math functions. *)
Theorem haversine_symmetric (lat1 lon1 lat2 lon2 : float) :
  Math_sin (- (Double.toRad (lat2 - lat1) / 2))
  = (- Math_sin (Double.toRad (lat2 - lat1) / 2))%float ->
  Math_sin (- (Double.toRad (lon2 - lon1) / 2))
  = (- Math_sin (Double.toRad (lon2 - lon1) / 2))%float ->
  haversine lat2 lon2 lat1 lon1 = haversine lat1 lon1 lat2 lon2.
Proof.
  intros Hlat Hlon.
  assert (Ha : Double.a Math_sin Math_cos lat2 lon2 lat1 lon1
               = Double.a Math_sin Math_cos lat1 lon1 lat2 lon2).
  { unfold Double.a. cbv zeta.
    destruct (squared_sine_swap lat1 lat2 Hlat) as [-> _].
    destruct (squared_sine_swap lon1 lon2 Hlon) as [_ ->].
    now rewrite (mul_comm (Math_cos (Double.toRad lat2))). }
  unfold Double.haversine. now rewrite Ha.
Qed.

End HaversineProperties.


Lemma haversine_overflow_witness :
  (is_finite SampleMath.huge = true
   /\ is_finite 0 = true
   /\ Double.toRad SampleMath.huge = infinity
   /\ SampleMath.Math_sin 0 = 0%float
   /\ SampleMath.Math_cos infinity = nan
   /\ SampleMath.Math_sqrt nan = nan
   /\ SampleMath.Math_atan2 nan nan = nan)
  /\ SampleMath.haversine SampleMath.huge 0 SampleMath.huge 0 = nan.
Proof.
  split.
  - repeat split; reflexivity.
  - apply (haversine_overflow SampleMath.Math_sin SampleMath.Math_cos
             SampleMath.Math_sqrt SampleMath.Math_atan2 SampleMath.huge 0);
      reflexivity.
Defined.

Lemma haversine_symmetric_witness :
  (SampleMath.Math_sin (- (Double.toRad (12 - -12) / 2))
   = (- SampleMath.Math_sin (Double.toRad (12 - -12) / 2))%float
   /\ SampleMath.Math_sin (- (Double.toRad (0 - 0) / 2))
      = (- SampleMath.Math_sin (Double.toRad (0 - 0) / 2))%float)
  /\ SampleMath.haversine 12 0 (-12) 0 = SampleMath.haversine (-12) 0 12 0.
Proof.
  split.
  - split; reflexivity.
  - apply (haversine_symmetric SampleMath.Math_sin SampleMath.Math_cos
             SampleMath.Math_sqrt SampleMath.Math_atan2 (-12) 0 12 0);
      reflexivity.
Defined.

(** The sample distance between the latitudes -12 and 12 on one meridian,
    24 degrees of arc: 2668.678239469409 km in both directions. *)
Example haversine_sample_distance :
  SampleMath.haversine (-12) 0 12 0 = 0x1.4d95b423427f0p+11%float
  /\ SampleMath.haversine 12 0 (-12) 0 = 0x1.4d95b423427f0p+11%float.
Proof. split; reflexivity. Qed.

